(** * webgl-rc example: the canvas lifecycle and render loop

    A shallow embedding of [webgl-rc-example/ui/canvas.tsx].  The component
    [Canvas] runs one React effect per mount.  The effect creates a rendering
    context with the caller's [init], starts a frame loop that calls the
    caller's [paint], keeps the canvas' pixel size in step with its layout
    size, and returns a cleanup function that disposes of all that.

    The embedding has three layers:
    - the host: the canvas element, the window (listeners, animation-frame
      queue, timers, clock), the caller's own state, and a log of what
      happened;
    - the effect's local variables ([context], [size], [disposed]) and the
      functions closed over them, written in a small state-and-exception
      monad;
    - the event loop: what the browser and React may do next.

    One run of the effect is modelled, from before the mount to after the
    unmount.  When [init] or [paint] changes identity React unmounts and
    mounts again: that is another run, with variables of its own. *)

From Stdlib Require Import QArith Qround Qpower Qabs ZArith NArith Ascii String
  DecimalString SpecFloat Lia.
From Stdlib Require DecimalN DecimalPos.
From stdpp Require Import base list strings gmap.

Set Default Proof Using "Type".

(** ** Numbers

    A JavaScript number is an IEEE 754 binary64 value: [spec_float] of the
    standard library, at precision 53 and maximal exponent 1024, with its
    signed zeros, infinities and NaN.  [clientWidth] and [clientHeight] are
    DOM [long]s that are never negative; [devicePixelRatio] is a [double].
    [a * b] is [SFmul]: the exact product rounded to the nearest binary64
    value, ties to even. *)

Abbreviation number := spec_float.

Module Num.

Definition prec : Z := 53.
Definition emax : Z := 1024.

(** The number nearest to an integer. *)
Definition of_Z (z : Z) : number := binary_normalize prec emax z 0 false.

(** A [long] read as a number. *)
Definition of_long (n : N) : number := of_Z (Z.of_N n).

Definition mul (a b : number) : number := SFmul prec emax a b.

(** Used to write down densities such as 3/2. *)
Definition div (a b : number) : number := SFdiv prec emax a b.

(** The value of a finite number without its sign, and with it. *)
Definition magnitude (m : positive) (e : Z) : Q := inject_Z (Zpos m) * 2 ^ e.

Definition value (x : number) : Q :=
  match x with
  | S754_finite s m e => if s then - magnitude m e else magnitude m e
  | _ => 0
  end.

(** Nearest integer of a rational that is not negative, the larger one on
    a tie. *)
Definition round (x : Q) : N := Z.to_N (Qfloor (x + (1 # 2))).

Definition digits (n : N) : string := NilZero.string_of_uint (N.to_uint n).

(** *** [Number::toString] from 10^21 on

    The digits are those of the shortest decimal that reads back as the
    same number, the nearest such decimal if there are several; the number
    is printed with an exponent. *)

Definition same (a b : number) : bool := SFeqb a b.

(** Of the two multiples [lo] and [hi] of a power of ten around [X], one
    that reads back as [x]: the nearer one, the even one on a tie. *)
Definition pick (x : number) (X lo hi : Z) : option Z :=
  match same (of_Z lo) x, same (of_Z hi) x with
  | true, true =>
      match (X - lo ?= hi - X)%Z with
      | Lt => Some lo
      | Gt => Some hi
      | Eq => Some (if Z.even (lo / (hi - lo)) then lo else hi)
      end
  | true, false => Some lo
  | false, true => Some hi
  | false, false => None
  end.

(** The decimal of [k] or more significant digits that reads back as [x],
    whose value is the integer [X] of [n] digits. *)
Fixpoint shortest (fuel k : nat) (x : number) (X : Z) (n : nat) : Z :=
  match fuel with
  | O => X
  | S fuel' =>
      let p := (10 ^ Z.of_nat (n - k))%Z in
      let lo := (X / p * p)%Z in
      match pick x X lo (lo + p) with
      | Some V => V
      | None => shortest fuel' (S k) x X n
      end
  end.

(** Without the zeros at the end. *)
Fixpoint strip (ds : list ascii) : list ascii :=
  match ds with
  | [] => []
  | d :: ds' =>
      match strip ds' with
      | [] => if Ascii.eqb d "0"%char then [] else [d]
      | r => d :: r
      end
  end.

Definition exponential (V : Z) : string :=
  let ds := list_ascii_of_string (digits (Z.to_N V)) in
  let e := digits (N.of_nat (length ds - 1)) in
  match strip ds with
  | [] => "0"
  | [d] => String d ("e+" +:+ e)
  | d :: rest => String d ("." +:+ string_of_list_ascii rest +:+ "e+" +:+ e)
  end.

Definition toString_large (m : positive) (e : Z) : string :=
  let X := Qfloor (magnitude m e) in
  let n := String.length (digits (Z.to_N X)) in
  exponential (shortest n 1 (S754_finite false m e) X n).

Definition ten21 : Q := inject_Z (10 ^ 21).

(** [x.toFixed(0)].  A number that is not finite prints as
    [Number::toString] has it.  Otherwise the sign is split off; from 10^21
    on the magnitude prints as [Number::toString] has it, with an exponent;
    below, it is rounded to the nearest integer, the larger one on a tie,
    and prints in decimal digits. *)
Definition toFixed0 (x : number) : string :=
  match x with
  | S754_nan => "NaN"
  | S754_infinity s => if s then "-Infinity" else "Infinity"
  | S754_zero _ => "0"
  | S754_finite s m e =>
      let v := magnitude m e in
      let body := if Qle_bool ten21 v then toString_large m e else digits (round v) in
      if s then "-" +:+ body else body
  end.

(** *** Kinds of numbers *)

Definition is_finite (x : number) : bool :=
  match x with
  | S754_zero _ | S754_finite _ _ _ => true
  | _ => false
  end.

(** Zero of either sign, positive, or plus infinity. *)
Definition nonneg (x : number) : bool :=
  match x with
  | S754_zero _ => true
  | S754_finite s _ _ | S754_infinity s => negb s
  | S754_nan => false
  end.

Definition is_integer (x : number) : bool :=
  match x with
  | S754_zero _ => true
  | S754_finite _ m (Zneg p) => (Zpos m mod 2 ^ Zpos p =? 0)%Z
  | S754_finite _ _ _ => true
  | _ => false
  end.

(** Finite and below 10^21 in magnitude: [toFixed(0)] prints digits. *)
Definition below_1e21 (x : number) : bool :=
  match x with
  | S754_zero _ => true
  | S754_finite _ m e => negb (Qle_bool ten21 (magnitude m e))
  | _ => false
  end.

(** A pixel density: finite and not negative. *)
Definition is_density (x : number) : bool := is_finite x && nonneg x.

(** The integer that a number was written as, if any. *)
Definition to_Z (x : number) : option Z :=
  match x with
  | S754_zero false => Some 0%Z
  | S754_finite s m e =>
      let v := match e with
               | Zneg p => (Zpos m / 2 ^ Zpos p)%Z
               | _ => (Zpos m * 2 ^ e)%Z
               end in
      let z := if s then (- v)%Z else v in
      match of_Z z with
      | S754_finite s' m' e' =>
          if Bool.eqb s s' && Pos.eqb m m' && Z.eqb e e' then Some z else None
      | _ => None
      end
  | _ => None
  end.

End Num.

Arguments Num.mul : simpl never.
Arguments Num.of_long : simpl never.
Arguments Num.toFixed0 : simpl never.
Arguments Num.magnitude : simpl never.

(** [640] is the number nearest to 640. *)
Declare Scope num_scope.
Delimit Scope num_scope with num.
Bind Scope num_scope with spec_float.
Number Notation spec_float Num.of_Z Num.to_Z : num_scope.

(** *** Rounding to binary64 *)

(** The exponent that binary64 gives a number of [d] binary digits before
    the point. *)
Definition fexp64 (d : Z) : Z := Z.max (d - 53) (-1074).

(** [m * 2^e] is an integer. *)
Definition Integral (m : positive) (e : Z) : Prop :=
  (0 <= e)%Z \/ Z.divide (2 ^ (- e)) (Zpos m).

(** ** Callbacks handed to the host

    The effect hands three of its functions to the browser: [resize] (to
    [setTimeout]), [requestResize] (to [addEventListener]) and the arrow
    function inside [requestRepaint] (to [requestAnimationFrame]). *)

Inductive callback : Type :=
| CbResize
| CbRequestResize
| CbFrame.

#[global] Instance callback_eq_dec : EqDecision callback.
Proof. solve_decision. Defined.

(** The canvas element, as far as the component looks at it. *)
Record HTMLCanvasElement : Type := mkCanvas {
  clientWidth : N;
  clientHeight : N;
  attributes : gmap string string
}.

Definition setAttribute_on (name value : string) (c : HTMLCanvasElement)
  : HTMLCanvasElement :=
  mkCanvas (clientWidth c) (clientHeight c) (<[name := value]> (attributes c)).

Arguments setAttribute_on : simpl never.

Inductive Phase : Type :=
| Unbound    (* the effect has not run *)
| Running    (* the effect has run, React holds its cleanup function *)
| Disposed   (* the cleanup function has run *)
| Failed.    (* the effect threw *)

Section CanvasComponent.

(** [U] is the state of the caller's world (the GPU, the wasm heap), which
    [init], [paint] and [free] may read and change; [Exn] is what they may
    throw; [C] is the rendering context.  The three do not call back into
    the component, the window or React. *)
Context {U Exn C : Type}.

Inductive result (A : Type) : Type :=
| Ok (a : A)
| Throw (e : Exn).
Arguments Ok {A} a.
Arguments Throw {A} e.

(** [C extends { free: () => void }] *)
Class Freeable : Type := free : C -> U -> result unit * U.

(** [interface CanvasProps<C>] *)
Record CanvasProps : Type := mkProps {
  init : HTMLCanvasElement -> U -> result C * U;
  paint : C -> number -> number -> U -> result unit * U
}.

(** What is logged, oldest first. *)
Inductive event : Type :=
| EvInit (r : result C)                  (* [init(canvas)] was called, with its outcome *)
| EvSizeWrite (w h : number)                  (* [size = [w, h]] *)
| EvSetAttribute (name value : string)   (* [canvas.setAttribute(name, value)] *)
| EvPaint (c : C) (w h : number)              (* [paint(c, w, h)] was called *)
| EvRequestFrame                         (* [requestAnimationFrame(...)] *)
| EvSetTimeout (delay : N)               (* [setTimeout(resize, delay)] *)
| EvAddListener (type : string)          (* [window.addEventListener(type, requestResize)] *)
| EvRemoveListener (type : string)       (* [window.removeEventListener(type, requestResize)] *)
| EvDisposed                             (* [disposed = true] *)
| EvFree (c : C)                         (* [c.free()] was called *)
| EvCall (cb : callback)                 (* the host calls one of the callbacks *)
| EvEscaped (e : Exn).                   (* an exception left the component's code *)

Record Host : Type := mkHost {
  canvas : HTMLCanvasElement;
  devicePixelRatio : number;
  listeners : list (string * callback);   (* on [window], in order of registration *)
  frames : list callback;                 (* requested for the next frame *)
  timers : list (N * callback);           (* due time and callback, oldest first *)
  now : N;                                (* milliseconds *)
  user : U;
  trace : list event
}.

(** The [let] variables of one run of the effect. *)
Record Scope : Type := mkScope {
  context : C;
  size : number * number;
  disposed : bool
}.

Record Live : Type := mkLive {
  host : Host;
  vars : Scope
}.

(** *** Field updates *)

Definition with_canvas (f : HTMLCanvasElement -> HTMLCanvasElement) (h : Host) : Host :=
  mkHost (f (canvas h)) (devicePixelRatio h) (listeners h) (frames h) (timers h)
         (now h) (user h) (trace h).

Definition with_listeners (f : list (string * callback) -> list (string * callback))
  (h : Host) : Host :=
  mkHost (canvas h) (devicePixelRatio h) (f (listeners h)) (frames h) (timers h)
         (now h) (user h) (trace h).

Definition with_frames (f : list callback -> list callback) (h : Host) : Host :=
  mkHost (canvas h) (devicePixelRatio h) (listeners h) (f (frames h)) (timers h)
         (now h) (user h) (trace h).

Definition with_timers (f : list (N * callback) -> list (N * callback)) (h : Host) : Host :=
  mkHost (canvas h) (devicePixelRatio h) (listeners h) (frames h) (f (timers h))
         (now h) (user h) (trace h).

Definition with_user (u : U) (h : Host) : Host :=
  mkHost (canvas h) (devicePixelRatio h) (listeners h) (frames h) (timers h)
         (now h) u (trace h).

Definition log (e : event) (h : Host) : Host :=
  mkHost (canvas h) (devicePixelRatio h) (listeners h) (frames h) (timers h)
         (now h) (user h) (trace h ++ [e]).

Definition on_host (f : Host -> Host) (l : Live) : Live :=
  mkLive (f (host l)) (vars l).

Definition on_vars (f : Scope -> Scope) (l : Live) : Live :=
  mkLive (host l) (f (vars l)).

(** *** The monad of the effect's functions *)

Definition M (A : Type) : Type := Live -> result A * Live.

Definition ret {A} (a : A) : M A := fun l => (Ok a, l).

Definition bind {A B} (m : M A) (k : A -> M B) : M B :=
  fun l =>
    match m l with
    | (Ok a, l') => k a l'
    | (Throw e, l') => (Throw e, l')
    end.

Definition gets {A} (f : Live -> A) : M A := fun l => (Ok (f l), l).

Definition modify (f : Live -> Live) : M unit := fun l => (Ok tt, f l).

End CanvasComponent.

Arguments result : clear implicits.
Arguments Ok {Exn A} a.
Arguments Throw {Exn A} e.
Arguments Freeable : clear implicits.
Arguments CanvasProps : clear implicits.
Arguments event : clear implicits.
Arguments Host : clear implicits.
Arguments Scope : clear implicits.
Arguments Live : clear implicits.
Arguments M : clear implicits.

Notation "x <- m ;; k" := (bind m (fun x => k))
  (at level 100, m at next level, right associativity, only parsing).
Notation "m ;; k" := (bind m (fun _ => k))
  (at level 100, right associativity, only parsing).

(** ** The component *)

Inductive action : Type :=
| AMount                                (* React runs the effect *)
| AUnmount                              (* React runs the cleanup function it holds *)
| AFrame                                (* a display frame: the requested callbacks run *)
| ATimer                                (* the oldest timer runs, if it is due *)
| AEvent (type : string)                (* [window] dispatches an event *)
| ALayout (cw ch : N) (dpr : number)         (* layout or pixel density changes *)
| ATick (ms : N).                       (* time passes *)

Definition add_listener (x : string * callback) (ls : list (string * callback))
  : list (string * callback) :=
  if decide (x ∈ ls) then ls else ls ++ [x].

Fixpoint remove_listener (x : string * callback) (ls : list (string * callback))
  : list (string * callback) :=
  match ls with
  | [] => []
  | y :: ls' => if decide (y = x) then ls' else y :: remove_listener x ls'
  end.

Fixpoint handlers_of (type : string) (ls : list (string * callback)) : list callback :=
  match ls with
  | [] => []
  | (t, cb) :: ls' =>
      if decide (t = type) then cb :: handlers_of type ls' else handlers_of type ls'
  end.

Arguments add_listener : simpl never.
Arguments remove_listener : simpl never.
Arguments handlers_of : simpl never.

Section Effect.

Context {U Exn C : Type} `{!Freeable U Exn C}.
Variable props : CanvasProps U Exn C.

Abbreviation M := (M U Exn C).
Abbreviation Live := (Live U Exn C).
Abbreviation Host := (Host U Exn C).
Abbreviation event := (event Exn C).

(** *** Host and variable primitives *)

Definition emit (e : event) : M unit := modify (on_host (log e)).

Definition setAttribute (name value : string) : M unit :=
  modify (on_host (with_canvas (setAttribute_on name value)));;
  emit (EvSetAttribute name value).

Definition setTimeout (cb : callback) (delay : N) : M unit :=
  modify (on_host (fun h => with_timers (fun ts => ts ++ [((now h + delay)%N, cb)]) h));;
  emit (EvSetTimeout delay).

Definition requestAnimationFrame (cb : callback) : M unit :=
  modify (on_host (with_frames (fun fs => fs ++ [cb])));;
  emit EvRequestFrame.

(** A listener that is already registered is not registered again. *)
Definition addEventListener (type : string) (cb : callback) : M unit :=
  modify (on_host (with_listeners (add_listener (type, cb))));;
  emit (EvAddListener type).

Definition removeEventListener (type : string) (cb : callback) : M unit :=
  modify (on_host (with_listeners (remove_listener (type, cb))));;
  emit (EvRemoveListener type).

Definition read_disposed : M bool := gets (fun l => disposed (vars l)).
Definition read_size : M (number * number) := gets (fun l => size (vars l)).
Definition read_context : M C := gets (fun l => context (vars l)).

Definition assign_size (s : number * number) : M unit :=
  modify (on_vars (fun v => mkScope (context v) s (disposed v)));;
  emit (EvSizeWrite (fst s) (snd s)).

Definition assign_disposed (b : bool) : M unit :=
  modify (on_vars (fun v => mkScope (context v) (size v) b));;
  if b then emit EvDisposed else ret tt.

Definition call_paint (c : C) (w h : number) : M unit :=
  emit (EvPaint c w h);;
  fun l => let '(r, u) := paint props c w h (user (host l)) in
           (r, on_host (with_user u) l).

Definition call_free (c : C) : M unit :=
  emit (EvFree c);;
  fun l => let '(r, u) := free c (user (host l)) in
           (r, on_host (with_user u) l).

(** *** The functions of the effect, in source order *)

Definition resize : M unit :=
  d <- read_disposed;;
  if negb d then
    cw <- gets (fun l => clientWidth (canvas (host l)));;
    ch <- gets (fun l => clientHeight (canvas (host l)));;
    dpr <- gets (fun l => devicePixelRatio (host l));;
    assign_size (Num.mul (Num.of_long cw) dpr, Num.mul (Num.of_long ch) dpr);;
    s <- read_size;;
    setAttribute "width" (Num.toFixed0 (fst s));;
    s <- read_size;;
    setAttribute "height" (Num.toFixed0 (snd s))
  else ret tt.

Definition requestResize : M unit :=
  resize;;
  setTimeout CbResize 200.

Definition requestRepaint : M unit :=
  requestAnimationFrame CbFrame.

(** The arrow function that [requestRepaint] hands to
    [requestAnimationFrame]. *)
Definition frame : M unit :=
  d <- read_disposed;;
  if negb d then
    c <- read_context;;
    s <- read_size;;
    call_paint c (fst s) (snd s);;
    requestRepaint
  else ret tt.

(** The effect from [requestRepaint()] on; [context], [size] and [disposed]
    are initialised. *)
Definition effect_body : M unit :=
  requestRepaint;;
  requestResize;;
  addEventListener "resize" CbRequestResize;;
  addEventListener "orientationchange" CbRequestResize.

(** The function returned by the effect. *)
Definition cleanup : M unit :=
  assign_disposed true;;
  removeEventListener "resize" CbRequestResize;;
  removeEventListener "orientationchange" CbRequestResize;;
  c <- read_context;;
  call_free c.

(** The effect.  [init] runs first; when it throws nothing else runs and no
    variable of the effect comes to exist. *)
Definition effect (h : Host) : result Exn unit * Host * option (Scope C) :=
  let '(r, u) := init props (canvas h) (user h) in
  let h1 := log (EvInit r) (with_user u h) in
  match r with
  | Throw e => (Throw e, h1, None)
  | Ok c =>
      let '(r', l) := effect_body (mkLive h1 (mkScope c (0, 0)%num false)) in
      (r', host l, Some (vars l))
  end.

(** *** The event loop *)

Definition invoke (cb : callback) : M unit :=
  emit (EvCall cb);;
  match cb with
  | CbResize => resize
  | CbRequestResize => requestResize
  | CbFrame => frame
  end.

(** The host reports an exception that leaves a callback and goes on. *)
Definition guarded (m : M unit) (l : Live) : Live :=
  match m l with
  | (Ok _, l') => l'
  | (Throw e, l') => on_host (log (EvEscaped e)) l'
  end.

Definition invoke_all (cbs : list callback) (l : Live) : Live :=
  foldl (fun l cb => guarded (invoke cb) l) l cbs.

(** The callbacks requested so far run; what they request is for the next
    frame. *)
Definition run_frame (l : Live) : Live :=
  invoke_all (frames (host l)) (on_host (with_frames (fun _ => [])) l).

(** All delays are equal, so the oldest timer is the first one due. *)
Definition run_timer (l : Live) : Live :=
  match timers (host l) with
  | (due, cb) :: rest =>
      if (due <=? now (host l))%N
      then guarded (invoke cb) (on_host (with_timers (fun _ => rest)) l)
      else l
  | [] => l
  end.

Definition dispatch (type : string) (l : Live) : Live :=
  invoke_all (handlers_of type (listeners (host l))) l.

Record World : Type := mkWorld {
  w_host : Host;
  w_scope : option (Scope C);
  w_phase : Phase
}.

(** The callbacks are closures of the effect: none exists before it has
    run. *)
Definition in_scope (f : Live -> Live) (w : World) : World :=
  match w_scope w with
  | Some s =>
      let l := f (mkLive (w_host w) s) in
      mkWorld (host l) (Some (vars l)) (w_phase w)
  | None => w
  end.

Definition set_phase (p : Phase) (w : World) : World :=
  mkWorld (w_host w) (w_scope w) p.

Definition mount (w : World) : World :=
  match effect (w_host w) with
  | (Ok _, h, sc) => mkWorld h sc Running
  | (Throw e, h, sc) => mkWorld (log (EvEscaped e) h) sc Failed
  end.

Definition layout (cw ch : N) (dpr : number) (h : Host) : Host :=
  mkHost (mkCanvas cw ch (attributes (canvas h))) dpr (listeners h) (frames h)
         (timers h) (now h) (user h) (trace h).

Definition tick (ms : N) (h : Host) : Host :=
  mkHost (canvas h) (devicePixelRatio h) (listeners h) (frames h) (timers h)
         (now h + ms)%N (user h) (trace h).

Definition step (a : action) (w : World) : World :=
  match a with
  | AMount =>
      match w_phase w with
      | Unbound => mount w
      | _ => w
      end
  | AUnmount =>
      match w_phase w with
      | Running => set_phase Disposed (in_scope (guarded cleanup) w)
      | _ => w
      end
  | AFrame => in_scope run_frame w
  | ATimer => in_scope run_timer w
  | AEvent type => in_scope (dispatch type) w
  | ALayout cw ch dpr => mkWorld (layout cw ch dpr (w_host w)) (w_scope w) (w_phase w)
  | ATick ms => mkWorld (tick ms (w_host w)) (w_scope w) (w_phase w)
  end.

Definition run (acts : list action) (w : World) : World :=
  foldl (fun w a => step a w) w acts.

Definition initial (cv : HTMLCanvasElement) (dpr : number) (u : U) : World :=
  mkWorld (mkHost cv dpr [] [] [] 0%N u []) None Unbound.

End Effect.

Arguments World : clear implicits.

(** ** A concrete caller, for running the model

    The context is a number; the caller's state counts the calls of [paint];
    [paint] throws from its [fail_at]-th call on. *)

Module Demo.

#[global] Instance free_nat : Freeable nat string nat :=
  fun _ u => (Ok tt, u).

Definition props (fail_at : nat) : CanvasProps nat string nat :=
  @mkProps nat string nat
    (fun _ u => (Ok 7, u))
    (fun _ _ _ u => (if fail_at <=? u then Throw "paint failed" else Ok tt, S u)).

Definition broken : CanvasProps nat string nat :=
  @mkProps nat string nat
    (fun _ u => (Throw "no webgl", u))
    (fun _ _ _ u => (Ok tt, S u)).

Definition canvas0 (cw ch : N) : HTMLCanvasElement := mkCanvas cw ch ∅.

Definition start (cw ch : N) (dpr : number) : World nat string nat :=
  initial (canvas0 cw ch) dpr 0.

End Demo.

(** ** Reading the log *)

Section Traces.

Context {Exn C : Type}.
Abbreviation event := (event Exn C).

Definition is_init (e : event) : bool :=
  match e with EvInit _ => true | _ => false end.

Definition is_write (e : event) : bool :=
  match e with EvSizeWrite _ _ => true | _ => false end.

Definition is_paint (e : event) : bool :=
  match e with EvPaint _ _ _ => true | _ => false end.

Definition is_request_frame (e : event) : bool :=
  match e with EvRequestFrame => true | _ => false end.

Definition is_set_timeout (e : event) : bool :=
  match e with EvSetTimeout _ => true | _ => false end.

Definition is_add (type : string) (e : event) : bool :=
  match e with EvAddListener t => String.eqb t type | _ => false end.

Definition is_remove (type : string) (e : event) : bool :=
  match e with EvRemoveListener t => String.eqb t type | _ => false end.

Definition is_disposed (e : event) : bool :=
  match e with EvDisposed => true | _ => false end.

Definition is_free (e : event) : bool :=
  match e with EvFree _ => true | _ => false end.

Definition is_call (cb : callback) (e : event) : bool :=
  match e with EvCall cb' => bool_decide (cb' = cb) | _ => false end.

Fixpoint count (p : event -> bool) (tr : list event) : nat :=
  match tr with
  | [] => 0
  | e :: tr' => (if p e then 1 else 0) + count p tr'
  end.

(** Has [disposed = true] happened? *)
Fixpoint seen_disposed (tr : list event) : bool :=
  match tr with
  | [] => false
  | e :: tr' => is_disposed e || seen_disposed tr'
  end.

(** The value of [size] after the log [tr], when it was [s] before. *)
Fixpoint size_after (s : number * number) (tr : list event) : number * number :=
  match tr with
  | [] => s
  | EvSizeWrite w h :: tr' => size_after (w, h) tr'
  | _ :: tr' => size_after s tr'
  end.

(** [size] starts as [[0, 0]]. *)
Definition last_size (tr : list event) : number * number := size_after (0, 0)%num tr.

(** The events that satisfy [p] and come before [disposed = true]. *)
Fixpoint count_live (p : event -> bool) (tr : list event) : nat :=
  match tr with
  | [] => 0
  | e :: tr' =>
      if is_disposed e then 0 else (if p e then 1 else 0) + count_live p tr'
  end.

(** What must hold of an event [e] given the log [pre] before it, in a mount
    whose context is [ctx]. *)
Definition ok (ctx : C) (pre : list event) (e : event) : Prop :=
  match e with
  | EvPaint c w h =>
      c = ctx /\ seen_disposed pre = false /\ last_size pre = (w, h)
      /\ 0 < count is_write pre
  | EvSizeWrite _ _ => seen_disposed pre = false
  | EvSetAttribute name value =>
      seen_disposed pre = false /\ 0 < count is_write pre
      /\ ((name = "width" /\ value = Num.toFixed0 (last_size pre).1)
          \/ (name = "height" /\ value = Num.toFixed0 (last_size pre).2))
  | EvRequestFrame => seen_disposed pre = false
  | EvSetTimeout _ => seen_disposed pre = false
  | EvAddListener _ => seen_disposed pre = false
  | EvCall CbRequestResize => seen_disposed pre = false
  | EvFree c => c = ctx /\ seen_disposed pre = true
  | EvDisposed => seen_disposed pre = false
  | EvInit r => pre = [] /\ r = Ok ctx
  | _ => True
  end.

Definition Safe (ctx : C) (tr : list event) : Prop :=
  forall pre e post, tr = pre ++ e :: post -> ok ctx pre e.

Fixpoint ok_all (ctx : C) (pre : list event) (evs : list event) : Prop :=
  match evs with
  | [] => True
  | e :: evs' => ok ctx pre e /\ ok_all ctx (pre ++ [e]) evs'
  end.

End Traces.

(** ** The invariant of the event loop *)

(** The listeners of a mounted component, in order of registration. *)
Definition both_listeners : list (string * callback) :=
  [("resize", CbRequestResize); ("orientationchange", CbRequestResize)].

(** The events the component listens to. *)
Definition is_viewport (type : string) : bool :=
  bool_decide (type = "resize") || bool_decide (type = "orientationchange").

(** Once if [b], never otherwise. *)
Definition once_if (b : bool) : nat := if b then 1 else 0.

Section Invariant.

Context {U Exn C : Type}.

Abbreviation World := (World U Exn C).
Abbreviation Host := (Host U Exn C).

(** What the log and the queues say once the effect's variables exist. *)
Record Bound (s : Scope C) (h : Host) : Prop := mkBound {
  bound_listeners : listeners h = if disposed s then [] else both_listeners;
  bound_frames : frames h = [] \/ frames h = [CbFrame];
  bound_timers : Forall (fun t => t.2 = CbResize) (timers h);
  bound_safe : Safe (context s) (trace h);
  bound_init : count is_init (trace h) = 1;
  bound_seen : seen_disposed (trace h) = disposed s;
  bound_disposed : count is_disposed (trace h) = once_if (disposed s);
  bound_free : count is_free (trace h) = once_if (disposed s);
  bound_size : last_size (trace h) = size s;
  bound_width : attributes (canvas h) !! "width" = Some (Num.toFixed0 (size s).1);
  bound_height : attributes (canvas h) !! "height" = Some (Num.toFixed0 (size s).2);
  bound_writes :
    count is_write (trace h)
    = 1 + count (is_call CbRequestResize) (trace h)
      + count_live (is_call CbResize) (trace h);
  bound_timeouts :
    count is_set_timeout (trace h) = 1 + count (is_call CbRequestResize) (trace h);
  bound_fired :
    count (is_call CbResize) (trace h) + length (timers h)
    = count is_set_timeout (trace h);
  bound_add_resize : count (is_add "resize") (trace h) = 1;
  bound_add_orientation : count (is_add "orientationchange") (trace h) = 1;
  bound_remove_resize : count (is_remove "resize") (trace h) = once_if (disposed s);
  bound_remove_orientation :
    count (is_remove "orientationchange") (trace h) = once_if (disposed s)
}.

Definition fresh (h : Host) : Prop :=
  listeners h = [] /\ frames h = [] /\ timers h = [] /\ trace h = [].

Definition failed (h : Host) : Prop :=
  listeners h = [] /\ frames h = [] /\ timers h = []
  /\ exists e, trace h = [EvInit (Throw e); EvEscaped e].

Definition Inv (w : World) : Prop :=
  match w_phase w, w_scope w with
  | Unbound, None => fresh (w_host w)
  | Failed, None => failed (w_host w)
  | Running, Some s => disposed s = false /\ Bound s (w_host w)
  | Disposed, Some s => disposed s = true /\ Bound s (w_host w)
  | _, _ => False
  end.

End Invariant.

(** ** Sizes *)

(** The pixel size of a canvas of client size [cw] x [ch] at pixel density
    [dpr], as [resize] computes it. *)
Definition scaled (cw ch : N) (dpr : number) : number * number :=
  (Num.mul (Num.of_long cw) dpr, Num.mul (Num.of_long ch) dpr).

(** The sizes written, oldest first. *)
Fixpoint writes {Exn C : Type} (tr : list (event Exn C)) : list (number * number) :=
  match tr with
  | [] => []
  | EvSizeWrite w h :: tr' => (w, h) :: writes tr'
  | _ :: tr' => writes tr'
  end.

(** What the mount logs, on a canvas of client size [cw] x [ch] at density
    [dpr], when [init] returns [c]. *)
Definition mount_log {Exn C : Type} (c : C) (cw ch : N) (dpr : number) : list (event Exn C) :=
  let sz := scaled cw ch dpr in
  [EvInit (Ok c); EvRequestFrame;
   EvSizeWrite sz.1 sz.2;
   EvSetAttribute "width" (Num.toFixed0 sz.1);
   EvSetAttribute "height" (Num.toFixed0 sz.2);
   EvSetTimeout 200;
   EvAddListener "resize"; EvAddListener "orientationchange"].

(** ** Layouts

    [L] is a property of the layouts (client size and density) that the
    canvas goes through. *)

Section Layouts.

Context {U Exn C : Type}.
Variable L : N -> N -> number -> Prop.

Definition layout_of (h : Host U Exn C) : N * N * number :=
  (clientWidth (canvas h), clientHeight (canvas h), devicePixelRatio h).

Definition holds (l : N * N * number) : Prop := L l.1.1 l.1.2 l.2.

Definition from_layout (sz : number * number) : Prop :=
  exists cw ch dpr, L cw ch dpr /\ sz = scaled cw ch dpr.

Definition action_ok (a : action) : Prop :=
  match a with
  | ALayout cw ch dpr => L cw ch dpr
  | _ => True
  end.

(** The canvas' layout satisfies [L]; every size written is the scaled size
    of a layout that does; and the log of a mounted component begins with
    the log of its mount. *)
Definition Laid (w : World U Exn C) : Prop :=
  holds (layout_of (w_host w))
  /\ Forall from_layout (writes (trace (w_host w)))
  /\ forall s, w_scope w = Some s ->
       exists cw ch dpr rest,
         L cw ch dpr
         /\ trace (w_host w) = mount_log (context s) cw ch dpr ++ rest.

End Layouts.

(** The layouts of a run: the one it starts with and those that the
    [ALayout] actions bring. *)
Definition had (cw0 ch0 : N) (dpr0 : number) (acts : list action) (cw ch : N) (dpr : number) : Prop :=
  (cw, ch, dpr) = (cw0, ch0, dpr0) \/ ALayout cw ch dpr ∈ acts.

(** ** Sizes in numbers *)

(** A DOM [long] that is not negative. *)
Definition is_long (n : N) : Prop := (n < 2 ^ 31)%N.

(** A layout that a browser can have: the client sizes are [long]s and the
    pixel density is finite and not negative. *)
Definition proper (cw ch : N) (dpr : number) : Prop :=
  is_long cw /\ is_long ch /\ Num.is_density dpr = true.

Definition proper_action (a : action) : Prop :=
  match a with
  | ALayout cw ch dpr => proper cw ch dpr
  | _ => True
  end.

Definition properb (cw ch : N) (dpr : number) : bool :=
  (cw <? 2 ^ 31)%N && (ch <? 2 ^ 31)%N && Num.is_density dpr.

(** Every layout of the run is proper: the one it starts with and those
    that the [ALayout] actions bring. *)
Definition proper_run (cv : HTMLCanvasElement) (dpr : number) (acts : list action) : bool :=
  properb (clientWidth cv) (clientHeight cv) dpr
  && forallb (fun a => match a with
                       | ALayout cw ch d => properb cw ch d
                       | _ => true
                       end) acts.

(** An integer, or the infinity that an integer too large for binary64
    becomes. *)
Definition whole (x : number) : Prop :=
  Num.is_integer x = true \/ x = S754_infinity false.

(** The pixel size of one of the layouts [had_layout]: not negative, and
    whole when the density of that layout is an integer. *)
Definition pixel_size (had_layout : N -> N -> number -> Prop) (sz : number * number)
  : Prop :=
  exists cw ch dpr,
    had_layout cw ch dpr
    /\ sz = scaled cw ch dpr
    /\ Num.nonneg sz.1 = true /\ Num.nonneg sz.2 = true
    /\ (Num.is_integer dpr = true -> whole sz.1 /\ whole sz.2).

(** [n] is an integer nearest to [x]. *)
Definition nearest (x : Q) (n : N) : Prop :=
  (x - (1 # 2) < inject_Z (Z.of_N n))%Q /\ (inject_Z (Z.of_N n) <= x + (1 # 2))%Q.

(** The three events of a recomputation of [sz]. *)
Definition recomputed {Exn C : Type} (sz : number * number) : list (event Exn C) :=
  [EvSizeWrite sz.1 sz.2;
   EvSetAttribute "width" (Num.toFixed0 sz.1);
   EvSetAttribute "height" (Num.toFixed0 sz.2)].

(** React runs the cleanup function. *)
Definition is_unmount (a : action) : bool :=
  match a with AUnmount => true | _ => false end.

(** ** Concrete runs *)

Module Runs.

Import Demo.

(** The log of a mount at 320 x 200 and density 2, to the first frame
    callback. *)
Definition mounted_log : list (event string nat) :=
  [EvInit (Ok 7); EvRequestFrame; EvSizeWrite 640 400;
   EvSetAttribute "width" "640"; EvSetAttribute "height" "400";
   EvSetTimeout 200; EvAddListener "resize"; EvAddListener "orientationchange";
   EvCall CbFrame].

(** Mount, one frame, unmount: a frame callback is still queued. *)
Definition cycle : World nat string nat :=
  run (props 100) [AMount; AFrame; AUnmount] (start 320 200 2).

(** Mount and one frame. *)
Definition painted (fail_at : nat) : World nat string nat :=
  run (props fail_at) [AMount; AFrame] (start 320 200 2).

(** Mount only. *)
Definition mounted (fail_at : nat) : World nat string nat :=
  run (props fail_at) [AMount] (start 320 200 2).

(** Mount, one event, both timers fire, unmount. *)
Definition resized : World nat string nat :=
  run (props 100) [AMount; AEvent "resize"; ATick 200; ATimer; ATimer; AUnmount]
    (start 320 200 2).

(** Mount and unmount at once: the timer of the mount fires too late. *)
Definition short : World nat string nat :=
  run (props 100) [AMount; AUnmount; ATick 200; ATimer] (start 320 200 2).

(** Mount and one frame at 321 x 200 and density 1.5. *)
Definition fractional : World nat string nat :=
  run (props 100) [AMount; AFrame] (start 321 200 (Num.div 3 2)).

End Runs.

(** ** More readings of the log *)

Section MoreTraces.

Context {Exn C : Type}.

Definition is_escaped (e : event Exn C) : bool :=
  match e with EvEscaped _ => true | _ => false end.

(** The host calls a callback that was queued: a frame callback or a
    timer. *)
Definition is_queued_call (e : event Exn C) : bool :=
  match e with
  | EvCall CbFrame | EvCall CbResize => true
  | _ => false
  end.

(** The sizes that [paint] received, oldest first. *)
Fixpoint paints (tr : list (event Exn C)) : list (number * number) :=
  match tr with
  | [] => []
  | EvPaint _ w h :: tr' => (w, h) :: paints tr'
  | _ :: tr' => paints tr'
  end.

(** What an exception that leaves the component adds to the log. *)
Definition escaped {A : Type} (r : result Exn A) : list (event Exn C) :=
  match r with
  | Ok _ => []
  | Throw e => [EvEscaped e]
  end.

End MoreTraces.

(** ** The frame loop *)

Section LoopInvariant.

Context {U Exn C : Type}.

(** How the log and the frame queue of a mounted component go together.
    Before the component is disposed an exception can only escape from
    [paint]. *)
Record Loop (s : Scope C) (h : Host U Exn C) : Prop := mkLoop {
  loop_paints : count is_paint (trace h) = count_live (is_call CbFrame) (trace h);
  loop_calls :
    count (is_call CbFrame) (trace h) + length (frames h)
    = count is_request_frame (trace h);
  loop_requests :
    count is_request_frame (trace h) + count_live is_escaped (trace h)
    = 1 + count is_paint (trace h);
  loop_alive :
    disposed s = false -> count_live is_escaped (trace h) = 0 ->
    frames h = [CbFrame];
  loop_dead : 0 < count_live is_escaped (trace h) -> frames h = [];
  loop_once : count_live is_escaped (trace h) <= 1
}.

Definition Looping (w : World U Exn C) : Prop :=
  match w_scope w with
  | Some s => Loop s (w_host w)
  | None => True
  end.

(** [size] is the scaled size of the canvas' layout, as long as the
    component is mounted. *)
Definition in_sync (w : World U Exn C) : Prop :=
  match w_scope w with
  | Some s =>
      disposed s = false ->
      size s = scaled (clientWidth (canvas (w_host w)))
                 (clientHeight (canvas (w_host w))) (devicePixelRatio (w_host w))
  | None => True
  end.

End LoopInvariant.

(** The browser signals every change of layout: each [ALayout] is followed
    at once by a [resize] or [orientationchange] event.  [pending] says that
    the event is due next. *)
Fixpoint signalled (pending : bool) (acts : list action) : bool :=
  match acts with
  | [] => negb pending
  | a :: rest =>
      if pending then
        match a with
        | AEvent type => is_viewport type && signalled false rest
        | _ => false
        end
      else
        match a with
        | ALayout _ _ _ => signalled true rest
        | _ => signalled false rest
        end
  end.

(** ** Timers *)

(** The timers are in the order in which they fall due. *)
Fixpoint ordered (ts : list (N * callback)) : Prop :=
  match ts with
  | [] => True
  | t :: ts' => Forall (fun t' => (t.1 <= t'.1)%N) ts' /\ ordered ts'
  end.

(** ** Reading an attribute back *)

(** The browser reads the [width] and [height] attributes of a canvas as
    natural numbers in decimal. *)
Definition parse_natural (s : string) : option N :=
  match NilZero.uint_of_string s with
  | Some d => Some (N.of_uint d)
  | None => None
  end.

(** A canvas with attributes of its own. *)
Definition styled_canvas : HTMLCanvasElement :=
  mkCanvas 320 200 (<["id" := "view"]> (<["width" := "300"]> ∅)).

(** The pending timers are in due order and none is due later than 200 ms
    from now. *)
Definition TimersOk {U Exn C : Type} (h : Host U Exn C) : Prop :=
  ordered (timers h)
  /\ Forall (fun t => (t.1 <= now h + 200)%N) (timers h).

(** ** Re-rendering

    [Canvas] passes [[init, paint]] to [useEffect] as the effect's
    dependencies.  React runs the effect after the first render; after a
    later render it compares the dependencies with those of the render
    before and, when one has changed identity, runs the cleanup function of
    the effect and then the effect again, on the same canvas element.

    A page holds the runs of the effect of one [Canvas]: the earlier ones,
    cleaned up, with whatever callbacks they left queued, and the present
    one.  Every run has variables, queues and a log of its own, in a world
    of the single-mount model; the canvas and the caller's state pass from
    one run to the next. *)

(** The identities of the two functions. *)
Record Deps : Type := mkDeps {
  dep_init : nat;
  dep_paint : nat
}.

#[global] Instance Deps_eq_dec : EqDecision Deps.
Proof. solve_decision. Defined.

Inductive page_action {R : Type} : Type :=
| PRender (r : R)                       (* React renders [Canvas] with these props *)
| PUnmount                              (* React unmounts [Canvas] *)
| PFrame                                (* a display frame *)
| PTimer (k : nat)                      (* the oldest timer of the [k]-th run fires, if due *)
| PEvent (type : string)                (* [window] dispatches an event *)
| PLayout (cw ch : N) (dpr : number)         (* layout or pixel density changes *)
| PTick (ms : N).                       (* time passes *)
Arguments page_action : clear implicits.

Section Pages.

Context {U Exn C : Type} `{!Freeable U Exn C}.

(** One render of [Canvas]: its props and their identities. *)
Record Render : Type := mkRender {
  deps : Deps;
  props_of : CanvasProps U Exn C
}.

(** One run of the effect: the render it closed over and its world. *)
Record Mount : Type := mkMount {
  rendered : Render;
  world : World U Exn C
}.

Record Page : Type := mkPage {
  past : list Mount;      (* the runs that were cleaned up, oldest first *)
  cur : Mount             (* the latest run *)
}.

Definition on_mount (a : action) (m : Mount) : Mount :=
  mkMount (rendered m) (step (props_of (rendered m)) a (world m)).

(** The world in which the effect runs again: the canvas, the clock and the
    caller's state are those that the run before leaves; the variables, the
    queues and the log are new. *)
Definition reborn (h : Host U Exn C) : World U Exn C :=
  mkWorld (mkHost (canvas h) (devicePixelRatio h) [] [] [] (now h) (user h) []) None
    Unbound.

(** A dependency has changed: the cleanup function runs, then the effect. *)
Definition remount (r : Render) (p : Page) : Page :=
  let old := on_mount AUnmount (cur p) in
  mkPage (past p ++ [old])
         (on_mount AMount (mkMount r (reborn (w_host (world old))))).

(** A render of a mounted [Canvas]. *)
Definition render (r : Render) (p : Page) : Page :=
  match w_phase (world (cur p)) with
  | Running => if decide (deps r = deps (rendered (cur p))) then p else remount r p
  | _ => p
  end.

(** The first render mounts. *)
Definition boot (r : Render) (cv : HTMLCanvasElement) (dpr : number) (u : U) : Page :=
  mkPage [] (on_mount AMount (mkMount r (initial cv dpr u))).

Definition everywhere (a : action) (p : Page) : Page :=
  mkPage (on_mount a <$> past p) (on_mount a (cur p)).

Definition pstep (a : page_action Render) (p : Page) : Page :=
  match a with
  | PRender r => render r p
  | PUnmount => mkPage (past p) (on_mount AUnmount (cur p))
  | PFrame => everywhere AFrame p
  | PTimer k =>
      match past p !! k with
      | Some _ => mkPage (alter (on_mount ATimer) k (past p)) (cur p)
      | None => mkPage (past p) (on_mount ATimer (cur p))
      end
  | PEvent type => everywhere (AEvent type) p
  | PLayout cw ch dpr => everywhere (ALayout cw ch dpr) p
  | PTick ms => everywhere (ATick ms) p
  end.

Definition prun (acts : list (page_action Render)) (p : Page) : Page :=
  foldl (fun p a => pstep a p) p acts.

Definition mounts (p : Page) : list Mount := past p ++ [cur p].

(** A world that the single-mount model reaches. *)
Definition Reach (m : Mount) : Prop :=
  exists acts cv dpr u,
    world m = run (props_of (rendered m)) acts (initial cv dpr u).

Definition PInv (p : Page) : Prop :=
  Forall (fun m => Reach m /\ w_phase (world m) = Disposed) (past p)
  /\ Reach (cur p)
  /\ w_phase (world (cur p)) <> Unbound.

(** A sum over the runs of the page. *)
Definition total (f : World U Exn C -> nat) (p : Page) : nat :=
  foldr (fun m n => f (world m) + n) 0 (mounts p).

Definition is_live (w : World U Exn C) : nat :=
  match w_phase w with Running => 1 | _ => 0 end.

End Pages.

Arguments Render : clear implicits.
Arguments Mount : clear implicits.
Arguments Page : clear implicits.

Definition is_init_ok {Exn C : Type} (e : event Exn C) : bool :=
  match e with EvInit (Ok _) => true | _ => false end.

Definition is_frame (a : action) : bool :=
  match a with AFrame => true | _ => false end.

Definition is_page_frame {R : Type} (a : page_action R) : bool :=
  match a with PFrame => true | _ => false end.

(** How many elements of [l] satisfy [p]. *)
Fixpoint tally {A : Type} (p : A -> bool) (l : list A) : nat :=
  match l with
  | [] => 0
  | x :: l' => (if p x then 1 else 0) + tally p l'
  end.

Definition paint_count {U Exn C : Type} (w : World U Exn C) : nat :=
  count is_paint (trace (w_host w)).

(** * Properties *)

Section TraceFacts.

Context {Exn C : Type}.
Implicit Types (tr pre post evs : list (event Exn C)) (e : event Exn C).

Lemma count_app p tr evs : count p (tr ++ evs) = count p tr + count p evs.
Proof. induction tr as [|e tr IH]; simpl; [done | rewrite IH; lia]. Qed.

Lemma seen_disposed_app tr evs :
  seen_disposed (tr ++ evs) = seen_disposed tr || seen_disposed evs.
Proof.
  induction tr as [|e tr IH]; simpl; [done |].
  by rewrite IH, orb_assoc.
Qed.

Lemma size_after_app s tr evs :
  size_after s (tr ++ evs) = size_after (size_after s tr) evs.
Proof.
  revert s. induction tr as [|e tr IH]; intros s; simpl; [done |].
  destruct e; apply IH.
Qed.

Lemma last_size_app tr evs : last_size (tr ++ evs) = size_after (last_size tr) evs.
Proof. apply size_after_app. Qed.

Lemma count_live_app p tr evs :
  count_live p (tr ++ evs)
  = count_live p tr + (if seen_disposed tr then 0 else count_live p evs).
Proof.
  induction tr as [|e tr IH]; simpl; [done |].
  destruct (is_disposed e); simpl; [done |]. rewrite IH. lia.
Qed.

Lemma count_live_le p tr : count_live p tr <= count p tr.
Proof.
  induction tr as [|e tr IH]; simpl; [done |].
  destruct (is_disposed e); lia.
Qed.

Lemma seen_disposed_count tr : seen_disposed tr = false -> count is_disposed tr = 0.
Proof.
  induction tr as [|e tr IH]; simpl; [done |].
  destruct (is_disposed e); simpl; [done | auto].
Qed.

Lemma Safe_nil (ctx : C) : Safe ctx ([] : list (event Exn C)).
Proof. intros [|e0 pre] e post H; discriminate. Qed.

(** Splitting [tr ++ [e']] at an event: it is the last one, or it is in
    [tr]. *)
Lemma snoc_split tr e' pre e post :
  tr ++ [e'] = pre ++ e :: post ->
  (post = [] /\ pre = tr /\ e = e')
  \/ (exists post', post = post' ++ [e'] /\ tr = pre ++ e :: post').
Proof.
  intros H. destruct post as [|x post _] using rev_ind.
  - left. apply app_inj_tail in H as [-> ->]. auto.
  - right. exists post.
    rewrite app_comm_cons, app_assoc in H.
    by apply app_inj_tail in H as [-> ->].
Qed.

Lemma Safe_snoc (ctx : C) tr e : Safe ctx tr -> ok ctx tr e -> Safe ctx (tr ++ [e]).
Proof.
  intros Hs Hok pre e0 post H.
  apply snoc_split in H as [(_ & -> & ->) | (post' & _ & ->)]; [done |].
  by eapply Hs.
Qed.

Lemma Safe_app (ctx : C) tr evs : Safe ctx tr -> ok_all ctx tr evs -> Safe ctx (tr ++ evs).
Proof.
  revert tr. induction evs as [|e evs IH]; intros tr Hs Hall.
  - by rewrite app_nil_r.
  - destruct Hall as [Hok Hall].
    change (e :: evs) with ([e] ++ evs). rewrite app_assoc.
    apply IH; [by apply Safe_snoc | done].
Qed.

End TraceFacts.

(** ** Listener bookkeeping *)

Lemma add_both :
  add_listener ("orientationchange", CbRequestResize)
    (add_listener ("resize", CbRequestResize) []) = both_listeners.
Proof. reflexivity. Qed.

Lemma remove_both :
  remove_listener ("orientationchange", CbRequestResize)
    (remove_listener ("resize", CbRequestResize) both_listeners) = [].
Proof. reflexivity. Qed.

Lemma handlers_of_both type :
  handlers_of type both_listeners = if is_viewport type then [CbRequestResize] else [].
Proof.
  unfold is_viewport, both_listeners, handlers_of.
  destruct (decide ("resize" = type)) as [<-|H1]; [reflexivity |].
  destruct (decide ("orientationchange" = type)) as [<-|H2]; [reflexivity |].
  rewrite !bool_decide_eq_false_2 by congruence. reflexivity.
Qed.

Lemma handlers_of_nil type : handlers_of type [] = [].
Proof. reflexivity. Qed.

Lemma insert_width (a b : string) (m : gmap string string) :
  <["height" := b]> (<["width" := a]> m) !! "width" = Some a.
Proof. rewrite lookup_insert_ne by done. apply lookup_insert_eq. Qed.

Lemma insert_height (a b : string) (m : gmap string string) :
  <["height" := b]> (<["width" := a]> m) !! "height" = Some b.
Proof. apply lookup_insert_eq. Qed.

Lemma attrs_width a b cv :
  attributes (setAttribute_on "height" b (setAttribute_on "width" a cv)) !! "width"
  = Some a.
Proof.
  unfold setAttribute_on. simpl.
  rewrite lookup_insert_ne by done. apply lookup_insert_eq.
Qed.

Lemma attrs_height a b cv :
  attributes (setAttribute_on "height" b (setAttribute_on "width" a cv)) !! "height"
  = Some b.
Proof. unfold setAttribute_on. simpl. apply lookup_insert_eq. Qed.

(** ** Symbolic execution of the model *)

Ltac exec :=
  cbv beta iota zeta delta
    [step in_scope set_phase mount effect effect_body run_frame run_timer
     dispatch invoke_all foldl guarded invoke cleanup frame requestResize
     resize requestRepaint call_paint call_free assign_size assign_disposed
     read_disposed read_size read_context setAttribute setTimeout
     requestAnimationFrame addEventListener removeEventListener emit bind ret
     gets modify on_host on_vars log with_canvas with_listeners with_frames
     with_timers with_user layout tick host vars canvas devicePixelRatio
     listeners frames timers now user trace context size disposed w_host
     w_scope w_phase negb fst snd clientWidth clientHeight Inv initial].

Ltac norm_trace := rewrite <- ?app_assoc; simpl app.

Ltac rewrite_obs :=
  rewrite ?count_app, ?seen_disposed_app, ?last_size_app, ?count_live_app,
    ?attrs_width, ?attrs_height, ?insert_width, ?insert_height;
  simpl;
  repeat match goal with H : seen_disposed _ = _ |- _ => rewrite H end;
  repeat match goal with H : last_size _ = _ |- _ => rewrite H end;
  simpl.

Ltac solve_safe :=
  apply Safe_app; [assumption |]; simpl; rewrite_obs;
  repeat split; try done; try lia; try (by left); try (by right).

Ltac solve_bound HB :=
  destruct HB; constructor; simpl in *; norm_trace;
  [ .. ]; first [ solve_safe | rewrite_obs; try done; try lia; eauto ].

Section Preservation.

Context {U Exn C : Type} `{!Freeable U Exn C}.
Variable props : CanvasProps U Exn C.

Lemma initial_Inv cv dpr u : Inv (initial cv dpr u : World U Exn C).
Proof. repeat split. Qed.

Lemma step_Inv a w : Inv w -> Inv (step props a w).
Proof.
  destruct w as [[cv dpr ls fs ts nw u tr] [[c [x y] d]|] ph];
    unfold Inv at 1; simpl; destruct ph; try done.
  - (* Running *)
    intros [-> HB].
    assert (Hls : ls = both_listeners) by (by destruct HB).
    assert (Hfs : fs = [] \/ fs = [CbFrame]) by (by destruct HB).
    assert (Hts : Forall (fun t => t.2 = CbResize) ts) by (by destruct HB).
    destruct a; exec; try done.
    + (* unmount *)
      subst ls. rewrite remove_both.
      destruct (free c u) as [[[]|e] u'] eqn:Hf; exec; (split; [done |]);
        solve_bound HB.
    + (* frame *)
      destruct Hfs as [-> | ->]; exec.
      { split; [done |]. solve_bound HB. }
      destruct (paint props c x y u) as [[[]|e] u'] eqn:Hp; exec; (split; [done |]);
        solve_bound HB.
    + (* timer *)
      destruct ts as [|[due cb] rest]; exec; [by split |].
      apply Forall_cons in Hts as [Hcb Hrest]. simpl in Hcb. subst cb.
      destruct (due <=? nw)%N; exec; (split; [done |]); [| done].
      solve_bound HB.
    + (* event *)
      subst ls. rewrite handlers_of_both.
      destruct (is_viewport type); exec; (split; [done |]); [| done].
      solve_bound HB.
      * apply Forall_app; split; [done |]. by repeat constructor.
      * rewrite length_app; simpl; lia.
    + split; [done |]. solve_bound HB.
    + split; [done |]. solve_bound HB.
  - (* Disposed *)
    intros [-> HB].
    assert (Hls : ls = []) by (by destruct HB).
    assert (Hfs : fs = [] \/ fs = [CbFrame]) by (by destruct HB).
    assert (Hts : Forall (fun t => t.2 = CbResize) ts) by (by destruct HB).
    destruct a; exec; try done.
    + destruct Hfs as [-> | ->]; exec; (split; [done |]); solve_bound HB.
    + destruct ts as [|[due cb] rest]; exec; [by split |].
      apply Forall_cons in Hts as [Hcb Hrest]. simpl in Hcb. subst cb.
      destruct (due <=? nw)%N; exec; (split; [done |]); [| done].
      solve_bound HB.
    + subst ls. rewrite handlers_of_nil. exec. by split.
    + split; [done |]. solve_bound HB.
    + split; [done |]. solve_bound HB.
  - (* Unbound *)
    intros (H1 & H2 & H3 & H4); simpl in H1, H2, H3, H4; subst.
    destruct a; exec; try done.
    destruct (init props cv u) as [[c|e] u'] eqn:Hi; exec.
    + rewrite add_both. split; [done |].
      constructor; simpl; try done; try lia; eauto.
      * apply (Safe_app _ []); [apply Safe_nil |]. simpl.
        repeat split; try done; try lia; try (by left); try (by right).
      * apply attrs_width.
      * apply attrs_height.
    + repeat split. by exists e.
  - (* Failed *)
    intros (H1 & H2 & H3 & e & H4); simpl in H1, H2, H3, H4; subst.
    destruct a; exec; try done; repeat split; by exists e.
Qed.

Lemma run_Inv acts w : Inv w -> Inv (run props acts w).
Proof.
  revert w. induction acts as [|a acts IH]; intros w Hw; [done |].
  apply IH. by apply step_Inv.
Qed.

Lemma reachable_Inv acts cv dpr u : Inv (run props acts (initial cv dpr u)).
Proof. apply run_Inv, initial_Inv. Qed.

End Preservation.

(** ** Finding events in a log *)

Section Splitting.

Context {Exn C : Type}.
Implicit Types (tr pre post : list (event Exn C)) (e : event Exn C).

Lemma count_none_app p tr post :
  count p (tr ++ post) = 0 -> count p tr = 0 /\ count p post = 0.
Proof. rewrite count_app. lia. Qed.

(** The last event that satisfies [p]. *)
Lemma count_last_split p tr :
  0 < count p tr ->
  exists pre e post, tr = pre ++ e :: post /\ p e = true /\ count p post = 0.
Proof.
  induction tr as [|e tr IH]; simpl; [lia |]. intros Hpos.
  destruct (Nat.eq_dec (count p tr) 0) as [Hz | Hnz].
  - destruct (p e) eqn:Hp; [| lia]. by exists [], e, tr.
  - destruct IH as (pre & e' & post & -> & He' & Hpost); [lia |].
    by exists (e :: pre), e', post.
Qed.


Lemma size_after_no_write s tr : count is_write tr = 0 -> size_after s tr = s.
Proof.
  revert s. induction tr as [|e tr IH]; intros s; simpl; [done |].
  destruct e; simpl; try done; apply IH.
Qed.

Lemma last_size_split pre w h post :
  count is_write post = 0 -> last_size (pre ++ EvSizeWrite w h :: post) = (w, h).
Proof.
  intros Hpost. rewrite last_size_app. simpl. by apply size_after_no_write.
Qed.

(** Whatever was seen in a prefix was seen in the whole. *)
Lemma seen_disposed_prefix pre post :
  seen_disposed pre = true -> seen_disposed (pre ++ post) = true.
Proof. intros H. by rewrite seen_disposed_app, H. Qed.

End Splitting.

(** ** Phases *)

Section Phases.

Context {U Exn C : Type} `{!Freeable U Exn C}.
Variable props : CanvasProps U Exn C.
Implicit Types (w : World U Exn C) (s : Scope C).

Lemma step_phase_Disposed a w :
  w_phase w = Disposed -> w_phase (step props a w) = Disposed.
Proof.
  destruct w as [h [s|] ph]; simpl; intros ->; by destruct a.
Qed.

Lemma run_phase_Disposed acts w :
  w_phase w = Disposed -> w_phase (run props acts w) = Disposed.
Proof.
  revert w. induction acts as [|a acts IH]; intros w Hw; [done |].
  apply IH. by apply step_phase_Disposed.
Qed.

Lemma Inv_Disposed w :
  Inv w -> w_phase w = Disposed ->
  exists s, w_scope w = Some s /\ disposed s = true /\ Bound s (w_host w).
Proof.
  unfold Inv. intros H Hp. rewrite Hp in H.
  destruct (w_scope w) as [s|]; [| done]. exists s. by destruct H.
Qed.

Lemma Inv_Running w :
  Inv w -> w_phase w = Running ->
  exists s, w_scope w = Some s /\ disposed s = false /\ Bound s (w_host w).
Proof.
  unfold Inv. intros H Hp. rewrite Hp in H.
  destruct (w_scope w) as [s|]; [| done]. exists s. by destruct H.
Qed.

Lemma Inv_scope w s :
  Inv w -> w_scope w = Some s ->
  Bound s (w_host w)
  /\ w_phase w = (if disposed s then Disposed else Running).
Proof.
  unfold Inv. intros H Hs. rewrite Hs in H.
  destruct (w_phase w); try done; destruct H as [-> HB]; done.
Qed.

Lemma Inv_no_scope w :
  Inv w -> w_scope w = None ->
  listeners (w_host w) = [] /\ frames (w_host w) = [] /\ timers (w_host w) = []
  /\ count is_paint (trace (w_host w)) = 0
  /\ count is_write (trace (w_host w)) = 0
  /\ count is_free (trace (w_host w)) = 0
  /\ (forall type, count (is_add type) (trace (w_host w)) = 0)
  /\ (forall type, count (is_remove type) (trace (w_host w)) = 0)
  /\ count is_init (trace (w_host w)) = (if w_phase w is Failed then 1 else 0).
Proof.
  unfold Inv. intros H Hs. rewrite Hs in H.
  destruct (w_phase w); try done.
  - destruct H as (-> & -> & -> & ->). done.
  - destruct H as (-> & -> & -> & e & ->). done.
Qed.

Lemma Inv_no_scope_seen w :
  Inv w -> w_scope w = None -> seen_disposed (trace (w_host w)) = false.
Proof.
  unfold Inv. intros H Hs. rewrite Hs in H.
  destruct (w_phase w); try done.
  - destruct H as (_ & _ & _ & ->). done.
  - destruct H as (_ & _ & _ & e & ->). done.
Qed.

Lemma step_phase_Running a w :
  w_phase w = Running -> is_unmount a = false -> w_phase (step props a w) = Running.
Proof.
  destruct w as [h [s|] ph]; simpl; intros -> Ha; by destruct a.
Qed.

Lemma unmount_phase w :
  w_phase w = Running -> w_phase (step props AUnmount w) = Disposed.
Proof. destruct w as [h sc ph]. simpl. by intros ->. Qed.

(** From [Running] the phase is [Disposed] as soon as React has run the
    cleanup function, and [Running] until then. *)
Lemma run_phase_Running more w :
  w_phase w = Running ->
  w_phase (run props more w) = if existsb is_unmount more then Disposed else Running.
Proof.
  revert w. induction more as [|a more IH]; intros w Hp; [done |].
  simpl. destruct (is_unmount a) eqn:Ha.
  - destruct a; try done. simpl.
    apply run_phase_Disposed. by apply unmount_phase.
  - simpl. apply IH. by apply step_phase_Running.
Qed.

(** The effect returns once [init] has: the mount succeeds. *)
Lemma mount_phase_Running w c u' :
  w_phase w = Unbound ->
  init props (canvas (w_host w)) (user (w_host w)) = (Ok c, u') ->
  w_phase (step props AMount w) = Running.
Proof.
  destruct w as [[cv dpr ls fs ts nw u tr] sc ph]. simpl. intros -> Hi.
  exec. rewrite Hi. by exec.
Qed.

End Phases.


(** * The lifecycle *)

Section Lifecycle.

Context {U Exn C : Type} `{!Freeable U Exn C}.
Variable props : CanvasProps U Exn C.
Implicit Types (w : World U Exn C) (s : Scope C).

(** What holds when [paint] is called: the component is mounted and not
    disposed, [size] has been written, and [paint] receives the context of
    the mount and the value of [size]. *)
Lemma paint_called acts cv dpr u pre c x y post :
  trace (w_host (run props acts (initial cv dpr u))) = pre ++ EvPaint c x y :: post ->
  exists s,
    w_scope (run props acts (initial cv dpr u)) = Some s
    /\ c = context s
    /\ seen_disposed pre = false
    /\ last_size pre = (x, y)
    /\ 0 < count is_write pre.
Proof.
  intros Htr. pose proof (reachable_Inv props acts cv dpr u) as HI.
  destruct (w_scope (run props acts (initial cv dpr u))) as [s|] eqn:Hs.
  - exists s. split; [done |].
    destruct (Inv_scope _ s HI Hs) as [HB _].
    exact (bound_safe _ _ HB _ _ _ Htr).
  - destruct (Inv_no_scope _ HI Hs) as (_ & _ & _ & Hp & _).
    rewrite Htr, count_app in Hp. simpl in Hp. lia.
Qed.


(** C2.  No [paint] call follows [disposed = true] in the log of any run;
    once the flag is true it stays true whatever happens next; and a frame
    callback that is still queued when the component is disposed runs
    without painting and without requesting another frame. *)
Theorem no_paint_after_disposal acts cv dpr u :
  let w := run props acts (initial cv dpr u) in
  (forall pre e post,
     trace (w_host w) = pre ++ e :: post ->
     seen_disposed pre = true ->
     is_paint e = false /\ is_request_frame e = false)
  /\ (forall s more,
        w_scope w = Some s -> disposed s = true ->
        exists s', w_scope (run props more w) = Some s' /\ disposed s' = true)
  /\ (w_phase w = Disposed -> frames (w_host w) = [CbFrame] ->
      trace (w_host (step props AFrame w)) = trace (w_host w) ++ [EvCall CbFrame]
      /\ frames (w_host (step props AFrame w)) = []).
Proof.
  intros w. pose proof (reachable_Inv props acts cv dpr u) as HI.
  fold w in HI. split; [| split].
  - intros pre e post Htr Hseen.
    destruct (w_scope w) as [s|] eqn:Hs.
    + destruct (Inv_scope w s HI Hs) as [HB _].
      pose proof (bound_safe _ _ HB _ _ _ Htr) as Hok.
      destruct e; simpl in *; try done.
      * destruct Hok as (_ & Hno & _). congruence.
      * congruence.
    + pose proof (Inv_no_scope_seen w HI Hs) as Hno.
      rewrite Htr, seen_disposed_app, Hseen in Hno. done.
  - intros s more Hs Hd.
    destruct (Inv_scope w s HI Hs) as [_ Hp]. rewrite Hd in Hp.
    pose proof (run_phase_Disposed props more w Hp) as Hp'.
    destruct (Inv_Disposed _ (run_Inv props more w HI) Hp') as (s' & ? & ? & _).
    by exists s'.
  - intros Hp Hfs.
    destruct (Inv_Disposed w HI Hp) as (s & Hs & Hd & _).
    destruct w as [[cv' dpr' ls fs ts nw u' tr] sc ph]. simpl in *. subst.
    destruct s as [c sz d]. simpl in Hd. subst d. by exec.
Qed.

(** C8.  Every [paint] call receives the width and the height of one and the
    same write of [size], the latest write before the call. *)
Theorem paint_sees_latest_write acts cv dpr u pre c x y post :
  trace (w_host (run props acts (initial cv dpr u))) = pre ++ EvPaint c x y :: post ->
  exists pre1 pre2,
    pre = pre1 ++ EvSizeWrite x y :: pre2 /\ count is_write pre2 = 0.
Proof.
  intros Htr.
  destruct (paint_called _ _ _ _ _ _ _ _ _ Htr) as (s & _ & _ & _ & Hsz & Hpos).
  destruct (count_last_split is_write pre Hpos) as (p1 & e & p2 & -> & He & Hp2).
  destruct e; try discriminate.
  rewrite last_size_split in Hsz by done. injection Hsz as -> ->.
  by exists p1, p2.
Qed.

(** C9.  A mount whose [init] returns registers the two listeners, each by
    one [addEventListener] call, and the component is then running; both
    stay registered, with no further call, until React runs the cleanup
    function; from then on none is registered, each having been removed by
    one [removeEventListener] call.  Before the mount none was ever
    registered; and in every state of every run the listeners and the calls
    are those of the state's phase. *)
Theorem listeners_added_once_removed_once acts cv dpr u c u' more :
  let w0 := run props acts (initial cv dpr u) in
  w_phase w0 = Unbound ->
  init props (canvas (w_host w0)) (user (w_host w0)) = (Ok c, u') ->
  let w1 := step props AMount w0 in
  let w2 := run props more w1 in
  let n w type := count (is_add type) (trace (w_host w)) in
  let m w type := count (is_remove type) (trace (w_host w)) in
  (listeners (w_host w0) = []
   /\ n w0 "resize" = 0 /\ n w0 "orientationchange" = 0
   /\ m w0 "resize" = 0 /\ m w0 "orientationchange" = 0)
  /\ (w_phase w1 = Running
      /\ listeners (w_host w1) = both_listeners
      /\ n w1 "resize" = 1 /\ n w1 "orientationchange" = 1
      /\ m w1 "resize" = 0 /\ m w1 "orientationchange" = 0)
  /\ (if existsb is_unmount more
      then w_phase w2 = Disposed
           /\ listeners (w_host w2) = []
           /\ n w2 "resize" = 1 /\ n w2 "orientationchange" = 1
           /\ m w2 "resize" = 1 /\ m w2 "orientationchange" = 1
      else w_phase w2 = Running
           /\ listeners (w_host w2) = both_listeners
           /\ n w2 "resize" = 1 /\ n w2 "orientationchange" = 1
           /\ m w2 "resize" = 0 /\ m w2 "orientationchange" = 0)
  /\ (forall acts',
        let w := run props acts' (initial cv dpr u) in
        match w_phase w with
        | Running =>
            listeners (w_host w) = both_listeners
            /\ n w "resize" = 1 /\ n w "orientationchange" = 1
            /\ m w "resize" = 0 /\ m w "orientationchange" = 0
        | Disposed =>
            listeners (w_host w) = []
            /\ n w "resize" = 1 /\ n w "orientationchange" = 1
            /\ m w "resize" = 1 /\ m w "orientationchange" = 1
        | Unbound | Failed =>
            listeners (w_host w) = []
            /\ n w "resize" = 0 /\ n w "orientationchange" = 0
            /\ m w "resize" = 0 /\ m w "orientationchange" = 0
        end).
Proof.
  intros w0 Hp0 Hi w1 w2 n m.
  assert (Hphase : forall w, Inv w ->
            match w_phase w with
            | Running =>
                listeners (w_host w) = both_listeners
                /\ n w "resize" = 1 /\ n w "orientationchange" = 1
                /\ m w "resize" = 0 /\ m w "orientationchange" = 0
            | Disposed =>
                listeners (w_host w) = []
                /\ n w "resize" = 1 /\ n w "orientationchange" = 1
                /\ m w "resize" = 1 /\ m w "orientationchange" = 1
            | Unbound | Failed =>
                listeners (w_host w) = []
                /\ n w "resize" = 0 /\ n w "orientationchange" = 0
                /\ m w "resize" = 0 /\ m w "orientationchange" = 0
            end).
  { intros w HI. subst n m. simpl. destruct (w_phase w) eqn:Hp.
    - unfold Inv in HI. rewrite Hp in HI.
      destruct (w_scope w) eqn:Hs; [done |].
      destruct (Inv_no_scope w) as (-> & _ & _ & _ & _ & _ & Ha & Hr & _); [| done |].
      { unfold Inv. by rewrite Hp, Hs. }
      by rewrite !Ha, !Hr.
    - destruct (Inv_Running w HI Hp) as (s & _ & Hd & HB).
      destruct HB. rewrite Hd in *. done.
    - destruct (Inv_Disposed w HI Hp) as (s & _ & Hd & HB).
      destruct HB. rewrite Hd in *. done.
    - unfold Inv in HI. rewrite Hp in HI.
      destruct (w_scope w) eqn:Hs; [done |].
      destruct (Inv_no_scope w) as (-> & _ & _ & _ & _ & _ & Ha & Hr & _); [| done |].
      { unfold Inv. by rewrite Hp, Hs. }
      by rewrite !Ha, !Hr. }
  assert (HI0 : Inv w0) by apply reachable_Inv.
  assert (HI1 : Inv w1) by (by apply step_Inv).
  assert (HI2 : Inv w2) by (by apply run_Inv).
  assert (Hp1 : w_phase w1 = Running) by (by eapply mount_phase_Running).
  assert (Hp2 : w_phase w2 = if existsb is_unmount more then Disposed else Running)
    by (by apply run_phase_Running).
  split; [| split; [| split]].
  - pose proof (Hphase w0 HI0) as H. by rewrite Hp0 in H.
  - pose proof (Hphase w1 HI1) as H. by rewrite Hp1 in H.
  - pose proof (Hphase w2 HI2) as H. rewrite Hp2 in H.
    by destruct (existsb is_unmount more).
  - intros acts' w. apply Hphase, reachable_Inv.
Qed.

End Lifecycle.

(** * Failures *)

Section Failures.

Context {U Exn C : Type} `{!Freeable U Exn C}.
Variable props : CanvasProps U Exn C.
Implicit Types (w : World U Exn C) (s : Scope C) (h : Host U Exn C).

(** After a failed mount nothing of the component is left to run. *)
Lemma failed_step a w :
  w_phase w = Failed -> w_scope w = None ->
  w_phase (step props a w) = Failed
  /\ w_scope (step props a w) = None
  /\ trace (w_host (step props a w)) = trace (w_host w)
  /\ listeners (w_host (step props a w)) = listeners (w_host w)
  /\ frames (w_host (step props a w)) = frames (w_host w)
  /\ timers (w_host (step props a w)) = timers (w_host w).
Proof.
  destruct w as [[cv dpr ls fs ts nw u tr] sc ph]. simpl. intros -> ->.
  by destruct a.
Qed.

Lemma failed_run acts w :
  w_phase w = Failed -> w_scope w = None ->
  w_phase (run props acts w) = Failed
  /\ w_scope (run props acts w) = None
  /\ trace (w_host (run props acts w)) = trace (w_host w)
  /\ listeners (w_host (run props acts w)) = listeners (w_host w)
  /\ frames (w_host (run props acts w)) = frames (w_host w)
  /\ timers (w_host (run props acts w)) = timers (w_host w).
Proof.
  revert w. induction acts as [|a acts IH]; intros w Hp Hs; [done |].
  destruct (failed_step a w Hp Hs) as (Hp' & Hs' & <- & <- & <- & <-).
  by apply IH.
Qed.

(** C7.  When [init] throws, the effect throws the same exception to its
    caller and creates none of its variables; whatever the host does
    afterwards, nothing but the failed [init] call and the escaping exception
    is ever logged (so no [paint], no frame request, no timer), and no
    listener, frame callback or timer is registered. *)
Theorem init_failure_starts_nothing h e u' :
  init props (canvas h) (user h) = (Throw e, u') ->
  effect props h = (Throw e, log (EvInit (Throw e)) (with_user u' h), None)
  /\ forall dpr acts,
       let w := run props (AMount :: acts) (initial (canvas h) dpr (user h)) in
       w_phase w = Failed /\ w_scope w = None
       /\ trace (w_host w) = [EvInit (Throw e); EvEscaped e]
       /\ listeners (w_host w) = []
       /\ frames (w_host w) = []
       /\ timers (w_host w) = [].
Proof.
  intros Hi. split.
  - unfold effect. by rewrite Hi.
  - intros dpr acts w. subst w. simpl.
    unfold mount, effect. simpl. rewrite Hi. simpl.
    match goal with |- context [run props acts ?w0] =>
      destruct (failed_run acts w0) as (? & ? & -> & -> & -> & ->) end; done.
Qed.

(** Once no frame callback is queued the loop is over: no step requests a
    frame or paints. *)
Lemma halted_step a w :
  Inv w -> w_phase w <> Unbound -> frames (w_host w) = [] ->
  w_phase (step props a w) <> Unbound
  /\ frames (w_host (step props a w)) = []
  /\ count is_paint (trace (w_host (step props a w)))
     = count is_paint (trace (w_host w))
  /\ count is_request_frame (trace (w_host (step props a w)))
     = count is_request_frame (trace (w_host w)).
Proof.
  destruct w as [[cv dpr ls fs ts nw u tr] [[c [x y] d]|] ph];
    unfold Inv; simpl; destruct ph; try done.
  - intros [-> HB] _ ->.
    assert (Hls : ls = both_listeners) by (by destruct HB).
    assert (Hts : Forall (fun t => t.2 = CbResize) ts) by (by destruct HB).
    destruct a; exec; try done.
    + subst ls. rewrite remove_both.
      destruct (free c u) as [[[]|e] u'] eqn:Hf; exec;
        rewrite !count_app; simpl; repeat split; try done; lia.
    + destruct ts as [|[due cb] rest]; exec; [done |].
      apply Forall_cons in Hts as [Hcb Hrest]. simpl in Hcb. subst cb.
      destruct (due <=? nw)%N; exec; [| done].
      rewrite !count_app; simpl; repeat split; try done; lia.
    + subst ls. rewrite handlers_of_both.
      destruct (is_viewport type); exec; [| done].
      rewrite !count_app; simpl; repeat split; try done; lia.
  - intros [-> HB] _ ->.
    assert (Hls : ls = []) by (by destruct HB).
    assert (Hts : Forall (fun t => t.2 = CbResize) ts) by (by destruct HB).
    destruct a; exec; try done.
    + destruct ts as [|[due cb] rest]; exec; [done |].
      apply Forall_cons in Hts as [Hcb Hrest]. simpl in Hcb. subst cb.
      destruct (due <=? nw)%N; exec; [| done].
      rewrite !count_app; simpl; repeat split; try done; lia.
    + subst ls. rewrite handlers_of_nil. by exec.
  - intros _ _ ->. by destruct a.
Qed.

Lemma halted_run acts w :
  Inv w -> w_phase w <> Unbound -> frames (w_host w) = [] ->
  frames (w_host (run props acts w)) = []
  /\ count is_paint (trace (w_host (run props acts w)))
     = count is_paint (trace (w_host w))
  /\ count is_request_frame (trace (w_host (run props acts w)))
     = count is_request_frame (trace (w_host w)).
Proof.
  revert w. induction acts as [|a acts IH]; intros w HI Hp Hfs; [done |].
  destruct (halted_step a w HI Hp Hfs) as (Hp' & Hfs' & <- & <-).
  apply IH; [by apply step_Inv | done | done].
Qed.

(** C6.  Suppose that [paint], called on what the component would pass it
    now, throws.  Then the frame in which that happens logs the call and the
    escaping exception, leaves no frame callback queued, and from then on no
    step of any run requests a frame or calls [paint]. *)
Theorem paint_failure_halts_loop acts cv dpr u s e u' :
  let w := run props acts (initial cv dpr u) in
  w_scope w = Some s ->
  paint props (context s) (size s).1 (size s).2 (user (w_host w)) = (Throw e, u') ->
  let w' := step props AFrame w in
  (w_phase w = Running -> frames (w_host w) = [CbFrame] ->
   trace (w_host w')
   = trace (w_host w)
     ++ [EvCall CbFrame; EvPaint (context s) (size s).1 (size s).2; EvEscaped e])
  /\ frames (w_host w') = []
  /\ forall more,
       frames (w_host (run props more w')) = []
       /\ count is_paint (trace (w_host (run props more w')))
          = count is_paint (trace (w_host w'))
       /\ count is_request_frame (trace (w_host (run props more w')))
          = count is_request_frame (trace (w_host w')).
Proof.
  intros w Hs Hpaint w'.
  pose proof (reachable_Inv props acts cv dpr u) as HI. fold w in HI.
  assert (HI' : Inv w') by (by apply step_Inv).
  assert (Hp' : w_phase w' <> Unbound).
  { destruct (Inv_scope w s HI Hs) as [_ Hp]. subst w'.
    destruct w as [h sc ph]. simpl in *. subst. by destruct (disposed s). }
  assert (Hfs' : frames (w_host w') = []
          /\ (w_phase w = Running -> frames (w_host w) = [CbFrame] ->
              trace (w_host w')
              = trace (w_host w)
                ++ [EvCall CbFrame; EvPaint (context s) (size s).1 (size s).2;
                    EvEscaped e])).
  { destruct (Inv_scope w s HI Hs) as [HB Hp].
    pose proof (bound_frames _ _ HB) as Hfs. subst w'. clear HI HI' Hp' HB.
    destruct w as [[cv' dpr' ls fs ts nw u0 tr] sc ph]. simpl in *. subst sc ph.
    destruct s as [c [x y] d]. simpl in *.
    destruct Hfs as [-> | ->]; exec; [done |].
    destruct d; exec; [done |]. rewrite Hpaint. exec.
    split; [done |]. intros _ _. by rewrite <- !app_assoc. }
  destruct Hfs' as [Hfs' Htr]. split; [done |]. split; [done |].
  intros more. by apply halted_run.
Qed.

End Failures.

(** * Resizing *)

Section Resizing.

Context {U Exn C : Type} `{!Freeable U Exn C}.
Variable props : CanvasProps U Exn C.
Implicit Types (w : World U Exn C) (s : Scope C) (l : Live U Exn C).

(** What [resize] does while the component is not disposed. *)
Lemma resize_live l :
  disposed (vars l) = false ->
  let cvs := canvas (host l) in
  let sz := scaled (clientWidth cvs) (clientHeight cvs) (devicePixelRatio (host l)) in
  exists l',
    resize l = (Ok tt, l')
    /\ size (vars l') = sz
    /\ attributes (canvas (host l'))
       = <["height" := Num.toFixed0 sz.2]>
           (<["width" := Num.toFixed0 sz.1]> (attributes cvs))
    /\ trace (host l')
       = trace (host l)
         ++ [EvSizeWrite sz.1 sz.2;
             EvSetAttribute "width" (Num.toFixed0 sz.1);
             EvSetAttribute "height" (Num.toFixed0 sz.2)].
Proof.
  destruct l as [[cv dpr ls fs ts nw u tr] [c sz d]]. simpl. intros ->.
  eexists. split; [reflexivity |]. simpl. by rewrite <- !app_assoc.
Qed.

(** [resize] does nothing once the component is disposed. *)
Lemma resize_disposed l : disposed (vars l) = true -> resize l = (Ok tt, l).
Proof.
  destruct l as [h [c sz d]]. simpl. intros ->. reflexivity.
Qed.

(** C3, as the code has it.  Every call of [requestResize], one at the mount
    and one per event handled, writes [size] once at once and sets one
    timer; a timer writes [size] once more when it fires before the
    component is disposed.  So the writes number one plus the events handled
    plus the timers that fired before disposal, at most twice the calls of
    [requestResize]; and after [disposed = true] nothing is written and no
    event is handled. *)
Theorem writes_counted acts cv dpr u :
  let w := run props acts (initial cv dpr u) in
  let tr := trace (w_host w) in
  let handled := count (is_call CbRequestResize) tr in
  let delayed := count_live (is_call CbResize) tr in
  match w_scope w with
  | Some _ =>
      count is_write tr = 1 + handled + delayed
      /\ delayed <= 1 + handled
      /\ count is_set_timeout tr = 1 + handled
  | None => count is_write tr = 0 /\ handled = 0
  end
  /\ forall pre e post,
       tr = pre ++ e :: post -> seen_disposed pre = true ->
       is_write e = false /\ is_call CbRequestResize e = false.
Proof.
  intros w tr handled delayed.
  pose proof (reachable_Inv props acts cv dpr u) as HI. fold w in HI.
  destruct (w_scope w) as [s|] eqn:Hs.
  - destruct (Inv_scope w s HI Hs) as [HB _].
    split.
    + destruct HB. subst tr handled delayed.
      pose proof (count_live_le (is_call CbResize) (trace (w_host w))). lia.
    + intros pre e post Htr Hseen.
      pose proof (bound_safe _ _ HB _ _ _ Htr) as Hok.
      destruct e as [| | | | | | | | | |[]|]; simpl in *; try done; congruence.
  - split.
    + destruct (Inv_no_scope w HI Hs) as (_ & _ & _ & _ & Hw & _).
      split; [done |]. subst handled tr.
      unfold Inv in HI. rewrite Hs in HI.
      destruct (w_phase w); try done.
      * by destruct HI as (_ & _ & _ & ->).
      * by destruct HI as (_ & _ & _ & e & ->).
    + intros pre e post Htr Hseen.
      pose proof (Inv_no_scope_seen w HI Hs) as Hno. fold tr in Hno.
      rewrite Htr, seen_disposed_app, Hseen in Hno. done.
Qed.

End Resizing.

(** * Sizes and layouts *)

Section StepLog.

Context {U Exn C : Type} `{!Freeable U Exn C}.
Variable props : CanvasProps U Exn C.
Implicit Types (w : World U Exn C) (s : Scope C).

Lemma writes_app (tr evs : list (event Exn C)) :
  writes (tr ++ evs) = writes tr ++ writes evs.
Proof.
  induction tr as [|e tr IH]; simpl; [done |].
  destruct e; simpl; by rewrite ?IH.
Qed.

Lemma writes_count (tr : list (event Exn C)) : length (writes tr) = count is_write tr.
Proof.
  induction tr as [|e tr IH]; simpl; [done |].
  destruct e; simpl; by rewrite ?IH.
Qed.

Ltac solve_log :=
  norm_trace;
  first
    [ eexists; split; [reflexivity |]
    | exists []; split; [by rewrite app_nil_r |] ];
  simpl; rewrite ?add_both;
  split; [first [by left | by right] |];
  split; [intros ? [= <-]; by eexists |];
  split; [intros ? Hnone Hsome; try done; by injection Hsome as <- | done].

(** What one step adds to the log. *)
Lemma step_log a w :
  Inv w ->
  exists evs,
    trace (w_host (step props a w)) = trace (w_host w) ++ evs
    /\ (writes evs = []
        \/ writes evs = [scaled (clientWidth (canvas (w_host w)))
                                (clientHeight (canvas (w_host w)))
                                (devicePixelRatio (w_host w))])
    /\ (forall s, w_scope w = Some s ->
          exists s', w_scope (step props a w) = Some s' /\ context s' = context s)
    /\ (forall s', w_scope w = None -> w_scope (step props a w) = Some s' ->
          evs = mount_log (context s') (clientWidth (canvas (w_host w)))
                  (clientHeight (canvas (w_host w))) (devicePixelRatio (w_host w)))
    /\ layout_of (w_host (step props a w))
       = match a with
         | ALayout cw ch dpr => (cw, ch, dpr)
         | _ => layout_of (w_host w)
         end.
Proof.
  destruct w as [[[cw ch attrs] dpr ls fs ts nw u tr] [[c [x y] d]|] ph];
    unfold Inv at 1; simpl; destruct ph; try done.
  - intros [-> HB].
    assert (Hls : ls = both_listeners) by (by destruct HB).
    assert (Hfs : fs = [] \/ fs = [CbFrame]) by (by destruct HB).
    assert (Hts : Forall (fun t => t.2 = CbResize) ts) by (by destruct HB).
    clear HB. destruct a; exec; try solve_log.
    + subst ls. rewrite remove_both.
      destruct (free c u) as [[[]|e] u'] eqn:Hf; exec; solve_log.
    + destruct Hfs as [-> | ->]; exec; [solve_log |].
      destruct (paint props c x y u) as [[[]|e] u'] eqn:Hp; exec; solve_log.
    + destruct ts as [|[due cb] rest]; exec; [solve_log |].
      apply Forall_cons in Hts as [Hcb Hrest]. simpl in Hcb. subst cb.
      destruct (due <=? nw)%N; exec; solve_log.
    + subst ls. rewrite handlers_of_both.
      destruct (is_viewport type); exec; solve_log.
  - intros [-> HB].
    assert (Hls : ls = []) by (by destruct HB).
    assert (Hfs : fs = [] \/ fs = [CbFrame]) by (by destruct HB).
    assert (Hts : Forall (fun t => t.2 = CbResize) ts) by (by destruct HB).
    clear HB. destruct a; exec; try solve_log.
    + destruct Hfs as [-> | ->]; exec; solve_log.
    + destruct ts as [|[due cb] rest]; exec; [solve_log |].
      apply Forall_cons in Hts as [Hcb Hrest]. simpl in Hcb. subst cb.
      destruct (due <=? nw)%N; exec; solve_log.
    + subst ls. rewrite handlers_of_nil. exec. solve_log.
  - intros (H1 & H2 & H3 & H4); simpl in H1, H2, H3, H4; subst.
    destruct a; exec; try solve_log.
    destruct (init props _ u) as [[c|e] u'] eqn:Hi; exec; solve_log.
  - intros (H1 & H2 & H3 & e & H4); simpl in H1, H2, H3, H4; subst.
    destruct a; exec; solve_log.
Qed.

End StepLog.

(** Case analysis on one step from a state that satisfies [Inv]: the goal is
    [Inv w -> G], and [fin] closes each case after symbolic execution. *)
Ltac step_cases props a w fin :=
  destruct w as [[[cw ch attrs] dpr ls fs ts nw u tr] [[c [x y] d]|] ph];
  unfold Inv at 1; simpl; destruct ph; try (intros []; fail);
  [ intros [-> HB];
    assert (Hls : ls = both_listeners) by (by destruct HB);
    assert (Hfs : fs = [] \/ fs = [CbFrame]) by (by destruct HB);
    assert (Hts : Forall (fun t => t.2 = CbResize) ts) by (by destruct HB);
    destruct a; exec;
    [ fin
    | subst ls; rewrite remove_both;
      destruct (free c u) as [[[]|e] u'] eqn:Hf; exec; fin
    | destruct Hfs as [-> | ->]; exec; [fin |];
      destruct (paint props c x y u) as [[[]|e] u'] eqn:Hp; exec; fin
    | destruct ts as [|[due cb] rest]; exec; [fin |];
      apply Forall_cons in Hts as [Hcb Hrest]; simpl in Hcb; subst cb;
      destruct (due <=? nw)%N eqn:Hdue; exec; fin
    | subst ls; rewrite handlers_of_both;
      destruct (is_viewport _) eqn:Hv; exec; fin
    | fin
    | fin ]
  | intros [-> HB];
    assert (Hls : ls = []) by (by destruct HB);
    assert (Hfs : fs = [] \/ fs = [CbFrame]) by (by destruct HB);
    assert (Hts : Forall (fun t => t.2 = CbResize) ts) by (by destruct HB);
    destruct a; exec;
    [ fin
    | fin
    | destruct Hfs as [-> | ->]; exec; fin
    | destruct ts as [|[due cb] rest]; exec; [fin |];
      apply Forall_cons in Hts as [Hcb Hrest]; simpl in Hcb; subst cb;
      destruct (due <=? nw)%N eqn:Hdue; exec; fin
    | subst ls; rewrite handlers_of_nil; exec; fin
    | fin
    | fin ]
  | intros (H1 & H2 & H3 & H4); simpl in H1, H2, H3, H4; subst;
    destruct a; exec;
    [ destruct (init props _ u) as [[c|e] u'] eqn:Hi; exec; fin
    | fin | fin | fin | fin | fin | fin ]
  | intros (H1 & H2 & H3 & e & H4); simpl in H1, H2, H3, H4; subst;
    destruct a; exec; fin ].

Section NumberFacts.

Local Open Scope Z_scope.

Lemma digits2_size m : digits2_pos m = Pos.size m.
Proof. induction m as [m IH | m IH |]; simpl; by rewrite ?IH. Qed.

Lemma iter_pos_nat {A} (f : A -> A) p x : SpecFloat.iter_pos f p x = Nat.iter (Pos.to_nat p) f x.
Proof.
  revert x. induction p as [p IH | p IH |]; intros x; cbn [SpecFloat.iter_pos].
  - rewrite !IH, Pos2Nat.inj_xI.
    replace (S (2 * Pos.to_nat p))%nat with (Pos.to_nat p + (Pos.to_nat p + 1))%nat by lia.
    rewrite !Nat.iter_add. done.
  - rewrite !IH, Pos2Nat.inj_xO.
    replace (2 * Pos.to_nat p)%nat with (Pos.to_nat p + Pos.to_nat p)%nat by lia.
    by rewrite Nat.iter_add.
  - done.
Qed.

Lemma shr_1_m r : 0 <= shr_m r -> shr_m (shr_1 r) = shr_m r / 2 /\ 0 <= shr_m (shr_1 r).
Proof.
  destruct r as [[|[p|p|]|p] r s]; cbn [shr_m shr_1]; intros H;
    [ | rewrite (Pos2Z.inj_xI p) | rewrite (Pos2Z.inj_xO p) | | lia ];
    Z.div_mod_to_equations; lia.
Qed.

Lemma shr_iter_m k r :
  0 <= shr_m r ->
  shr_m (Nat.iter k shr_1 r) = shr_m r / 2 ^ Z.of_nat k /\ 0 <= shr_m (Nat.iter k shr_1 r).
Proof.
  intros Hr. induction k as [|k [IH1 IH2]].
  - simpl. by rewrite Z.div_1_r.
  - rewrite Nat.iter_succ. destruct (shr_1_m _ IH2) as [H1 H2]. split; [| done].
    assert (HP : 0 < 2 ^ Z.of_nat k) by (apply Z.pow_pos_nonneg; lia).
    rewrite H1, IH1, Nat2Z.inj_succ, Z.pow_succ_r by lia.
    rewrite Z.div_div by lia. f_equal. lia.
Qed.

Lemma shr_1_even m :
  0 <= m -> Z.even m = true ->
  shr_1 (Build_shr_record m false false) = Build_shr_record (m / 2) false false.
Proof.
  intros Hm He. destruct m as [|[p|p|]|p]; try done.
  cbn [shr_1 orb]. f_equal. rewrite (Pos2Z.inj_xO p). Z.div_mod_to_equations. lia.
Qed.

Lemma shr_iter_exact k m :
  0 <= m -> Z.divide (2 ^ Z.of_nat k) m ->
  Nat.iter k shr_1 (Build_shr_record m false false)
  = Build_shr_record (m / 2 ^ Z.of_nat k) false false.
Proof.
  revert m. induction k as [|k IH]; intros m Hm Hd.
  - simpl. by rewrite Z.div_1_r.
  - rewrite Nat.iter_succ_r.
    rewrite Nat2Z.inj_succ, Z.pow_succ_r in * by lia.
    set (P := 2 ^ Z.of_nat k) in *.
    assert (HP : 0 < P) by (apply Z.pow_pos_nonneg; lia).
    destruct Hd as [q Hq].
    assert (Hq0 : 0 <= q).
    { apply Z.mul_nonneg_cancel_r with (2 * P); lia. }
    assert (Hhalf : m / 2 = q * P).
    { subst m. replace (q * (2 * P)) with (q * P * 2) by ring. apply Z.div_mul. lia. }
    rewrite shr_1_even; [| done |].
    + rewrite Hhalf, IH.
      * f_equal. rewrite Z.div_mul by lia.
        subst m. replace (q * (2 * P)) with (q * (2 * P)) by ring.
        rewrite Z.div_mul by lia. done.
      * apply Z.mul_nonneg_nonneg; lia.
      * by exists q.
    + subst m. rewrite !Z.even_mul. simpl. by rewrite orb_true_r.
Qed.

Lemma fexp_eq d : fexp Num.prec Num.emax d = fexp64 d.
Proof. reflexivity. Qed.

Lemma Zdigits2_log2 z : 0 < z -> Zdigits2 z = Z.log2 z + 1.
Proof.
  destruct z as [|p|p]; try lia. intros _. simpl. rewrite digits2_size.
  destruct p as [p|p|]; simpl; lia.
Qed.

Lemma shr_fexp_eq m e l :
  shr_fexp Num.prec Num.emax m e l
  = let n := fexp64 (Zdigits2 m + e) - e in
    if 0 <? n
    then (Nat.iter (Z.to_nat n) shr_1 (shr_record_of_loc m l), e + n)
    else (shr_record_of_loc m l, e).
Proof.
  unfold shr_fexp. rewrite fexp_eq. cbv zeta.
  destruct (fexp64 (Zdigits2 m + e) - e) as [|p|p] eqn:Hn; try done.
  unfold shr. rewrite iter_pos_nat. simpl. done.
Qed.

Lemma shr_record_of_loc_m m l : shr_m (shr_record_of_loc m l) = m.
Proof. by destruct l as [|[]]. Qed.

Lemma shr_fexp_props m e l :
  0 <= m ->
  0 <= shr_m (shr_fexp Num.prec Num.emax m e l).1
  /\ (shr_fexp Num.prec Num.emax m e l).2 = Z.max e (fexp64 (Zdigits2 m + e)).
Proof.
  intros Hm. rewrite shr_fexp_eq. cbv zeta.
  destruct (0 <? _) eqn:Hn; simpl.
  - apply Z.ltb_lt in Hn. split; [| lia].
    apply shr_iter_m. by rewrite shr_record_of_loc_m.
  - apply Z.ltb_ge in Hn. rewrite shr_record_of_loc_m. split; [done | lia].
Qed.

Lemma shr_fexp_exact m e :
  0 <= m ->
  let n := fexp64 (Zdigits2 m + e) - e in
  n <= 0 \/ Z.divide (2 ^ n) m ->
  shr_fexp Num.prec Num.emax m e loc_Exact
  = (Build_shr_record (m / 2 ^ Z.max 0 n) false false, e + Z.max 0 n).
Proof.
  intros Hm n Hn. rewrite shr_fexp_eq. fold n. cbv zeta.
  destruct (0 <? n) eqn:Hpos.
  - apply Z.ltb_lt in Hpos. destruct Hn as [Hn | Hn]; [lia |].
    rewrite Z.max_r by lia. simpl shr_record_of_loc.
    rewrite shr_iter_exact; [by rewrite Z2Nat.id by lia | done |].
    by rewrite Z2Nat.id by lia.
  - apply Z.ltb_ge in Hpos. rewrite Z.max_l by lia.
    simpl. by rewrite Z.div_1_r, Z.add_0_r.
Qed.

Lemma round_nearest_even_nonneg m l : 0 <= m -> 0 <= round_nearest_even m l.
Proof. intros Hm. destruct l as [|[]]; simpl; try lia. destruct (Z.even m); lia. Qed.

(** Rounding keeps the sign, and never lowers the exponent. *)
Lemma round_aux_cases s M E :
  let r := binary_round_aux Num.prec Num.emax s (Zpos M) E loc_Exact in
  r = S754_zero s \/ r = S754_infinity s
  \/ exists m e, r = S754_finite s m e /\ E <= e /\ fexp64 (Zdigits2 (Zpos M) + E) <= e.
Proof.
  unfold binary_round_aux.
  pose proof (shr_fexp_props (Zpos M) E loc_Exact ltac:(lia)) as [H1 H2].
  destruct (shr_fexp _ _ (Zpos M) E loc_Exact) as [mrs' e']. simpl in H1, H2.
  pose proof (round_nearest_even_nonneg _ (loc_of_shr_record mrs') H1) as H3.
  pose proof (shr_fexp_props _ e' loc_Exact H3) as [H4 H5].
  destruct (shr_fexp _ _ (round_nearest_even _ _) e' loc_Exact) as [mrs'' e''].
  simpl in H4, H5.
  destruct (shr_m mrs'') as [|m|m];
    [by left | | pose proof (Pos2Z.neg_is_neg m); lia].
  destruct (e'' <=? _); [| by right; left].
  right; right. exists m, e''. split; [done |]. cbn [Zdigits2]. lia.
Qed.

Lemma digits_div_pow2 M k :
  0 < M -> 0 <= k -> Z.divide (2 ^ k) M -> Zdigits2 (M / 2 ^ k) = Zdigits2 M - k.
Proof.
  intros HM Hk [q ->].
  assert (HP : 0 < 2 ^ k) by (apply Z.pow_pos_nonneg; lia).
  assert (Hq : 0 < q) by nia.
  rewrite Z.div_mul by lia.
  rewrite !Zdigits2_log2 by nia.
  rewrite Z.log2_mul_pow2 by lia. lia.
Qed.

(** When no bit that is not zero has to go, rounding is exact. *)
Lemma round_aux_exact s M E :
  let n := fexp64 (Zdigits2 (Zpos M) + E) - E in
  n <= 0 \/ Z.divide (2 ^ n) (Zpos M) ->
  binary_round_aux Num.prec Num.emax s (Zpos M) E loc_Exact
  = if E + Z.max 0 n <=? 971
    then S754_finite s (Z.to_pos (Zpos M / 2 ^ Z.max 0 n)) (E + Z.max 0 n)
    else S754_infinity s.
Proof.
  intros n Hn. unfold binary_round_aux.
  rewrite (shr_fexp_exact (Zpos M) E) by (done || lia). fold n.
  cbn [loc_of_shr_record shr_m round_nearest_even].
  set (k := Z.max 0 n).
  assert (Hk : 0 <= k) by lia.
  assert (Hdiv : Z.divide (2 ^ k) (Zpos M)).
  { unfold k. destruct Hn as [Hn | Hn].
    - rewrite Z.max_l by lia. simpl. apply Z.divide_1_l.
    - destruct (Z.le_gt_cases n 0).
      + rewrite Z.max_l by lia. simpl. apply Z.divide_1_l.
      + by rewrite Z.max_r by lia. }
  assert (HP : 0 < 2 ^ k) by (apply Z.pow_pos_nonneg; lia).
  set (M' := Zpos M / 2 ^ k).
  assert (HM' : 0 < M').
  { unfold M'. destruct Hdiv as [q Hq]. rewrite Hq, Z.div_mul by lia. nia. }
  assert (Hd : Zdigits2 M' = Zdigits2 (Zpos M) - k).
  { apply digits_div_pow2; [lia | done | done]. }
  assert (Hkn : n <= k) by (unfold k; lia).
  assert (Harg : Zdigits2 M' + (E + k) = Zdigits2 (Zpos M) + E) by lia.
  rewrite (shr_fexp_exact M' (E + k)); [| lia | left; rewrite Harg; fold n; lia].
  rewrite Harg.
  replace (Z.max 0 (fexp64 (Zdigits2 (Z.pos M) + E) - (E + k))) with 0
    by (unfold n in Hkn; lia).
  cbn [shr_m]. rewrite Z.pow_0_r, Z.div_1_r, Z.add_0_r.
  destruct M' as [|m'|m'] eqn:HMe; try lia.
  change (Num.emax - Num.prec) with 971. done.
Qed.

Lemma pow2_divide a b : 0 <= a <= b -> Z.divide (2 ^ a) (2 ^ b).
Proof.
  intros H. exists (2 ^ (b - a)). rewrite <- Z.pow_add_r by lia. f_equal. lia.
Qed.

Lemma Integral_mul m1 e1 m2 e2 :
  Integral m1 e1 -> Integral m2 e2 -> Integral (m1 * m2) (e1 + e2).
Proof.
  unfold Integral. rewrite Pos2Z.inj_mul.
  intros [H1 | H1] [H2 | H2].
  - left. lia.
  - destruct (Z.le_gt_cases 0 (e1 + e2)); [by left | right].
    apply Z.divide_mul_r. etrans; [| exact H2]. apply pow2_divide. lia.
  - destruct (Z.le_gt_cases 0 (e1 + e2)); [by left | right].
    apply Z.divide_mul_l. etrans; [| exact H1]. apply pow2_divide. lia.
  - destruct (Z.le_gt_cases 0 e1); [| destruct (Z.le_gt_cases 0 e2)].
    + destruct (Z.le_gt_cases 0 (e1 + e2)); [by left | right].
      apply Z.divide_mul_r. etrans; [| exact H2]. apply pow2_divide. lia.
    + destruct (Z.le_gt_cases 0 (e1 + e2)); [by left | right].
      apply Z.divide_mul_l. etrans; [| exact H1]. apply pow2_divide. lia.
    + right. replace (- (e1 + e2)) with (- e1 + - e2) by lia.
      rewrite Z.pow_add_r by lia.
      destruct H1 as [q1 H1], H2 as [q2 H2]. exists (q1 * q2).
      rewrite H1, H2. ring.
Qed.

(** Rounding an integer gives an integer. *)
Lemma round_aux_integral s M E m e :
  Integral M E ->
  binary_round_aux Num.prec Num.emax s (Zpos M) E loc_Exact = S754_finite s m e ->
  Integral m e.
Proof.
  intros HI Hr.
  destruct (round_aux_cases s M E) as [H | [H | (m' & e' & H & HE & HF)]];
    rewrite Hr in H; try discriminate.
  injection H as <- <-.
  destruct (Z.le_gt_cases 0 e) as [He | He]; [by left |].
  destruct HI as [HI | HI]; [lia |].
  set (n := fexp64 (Zdigits2 (Zpos M) + E) - E) in *.
  assert (Hn : n <= 0 \/ Z.divide (2 ^ n) (Zpos M)).
  { destruct (Z.le_gt_cases n 0); [by left | right].
    etrans; [| exact HI]. apply pow2_divide. lia. }
  rewrite (round_aux_exact s M E Hn) in Hr. fold n in Hr.
  destruct (_ <=? 971); [| discriminate].
  injection Hr as Hm He'. right.
  set (k := Z.max 0 n) in *.
  assert (Hk : 0 <= k <= - E) by lia.
  assert (HP : 0 < 2 ^ k) by (apply Z.pow_pos_nonneg; lia).
  destruct HI as [q Hq].
  assert (Hsplit : 2 ^ (- E) = 2 ^ (- e) * 2 ^ k).
  { rewrite <- Z.pow_add_r by lia. f_equal. lia. }
  assert (Hdiv : Zpos M / 2 ^ k = q * 2 ^ (- e)).
  { rewrite Hq, Hsplit, Z.mul_assoc. apply Z.div_mul. lia. }
  assert (Hpos : 0 < Zpos M / 2 ^ k).
  { rewrite Hdiv. assert (0 < 2 ^ (- e)) by (apply Z.pow_pos_nonneg; lia).
    assert (0 < 2 ^ (- E)) by (apply Z.pow_pos_nonneg; lia). nia. }
  rewrite <- Hm, Z2Pos.id by done. by exists q.
Qed.

Lemma iter_xO p d : Zpos (Pos.iter xO p d) = Zpos p * 2 ^ Zpos d.
Proof.
  induction d as [|d IH] using Pos.peano_ind.
  - simpl. lia.
  - rewrite Pos.iter_succ, Pos2Z.inj_xO, IH, Pos2Z.inj_succ, Z.pow_succ_r by lia. lia.
Qed.

Lemma is_integer_Integral s m e : Num.is_integer (S754_finite s m e) = true <-> Integral m e.
Proof.
  unfold Integral. destruct e as [|p|p]; simpl.
  - split; [left; lia | done].
  - split; [left; lia | done].
  - rewrite Z.eqb_eq. split.
    + intros H. right. apply Z.mod_divide in H; [done |].
      apply Z.pow_nonzero; lia.
    + intros [H | H]; [lia |]. apply Z.mod_divide; [| done].
      apply Z.pow_nonzero; lia.
Qed.

Lemma shl_align_spec p e e' :
  (shl_align p e e').2 = Z.min e e'
  /\ Zpos (shl_align p e e').1 = Zpos p * 2 ^ (e - Z.min e e').
Proof.
  unfold shl_align. destruct (e' - e) as [|d|d] eqn:Hd; simpl.
  - rewrite Z.min_l by lia. rewrite Z.sub_diag. simpl. lia.
  - rewrite Z.min_l by lia. rewrite Z.sub_diag. simpl. lia.
  - rewrite Z.min_r by lia. split; [done |].
    rewrite iter_xO. f_equal. f_equal. lia.
Qed.

Lemma digits_mul_pow2 M k : 0 < M -> 0 <= k -> Zdigits2 (M * 2 ^ k) = Zdigits2 M + k.
Proof.
  intros HM Hk.
  assert (HP : 0 < 2 ^ k) by (apply Z.pow_pos_nonneg; lia).
  rewrite !Zdigits2_log2 by nia. rewrite Z.log2_mul_pow2 by lia. lia.
Qed.

(** A positive integer below 2^53 is a binary64 number. *)
Lemma binary_round_small p :
  Zpos p < 2 ^ 53 ->
  exists m e,
    binary_round Num.prec Num.emax false p 0 = S754_finite false m e
    /\ e <= 0 /\ Zpos m = Zpos p * 2 ^ (- e).
Proof.
  intros Hp. unfold binary_round. rewrite fexp_eq.
  assert (HD : Zpos (digits2_pos p) <= 53).
  { change (Zpos (digits2_pos p)) with (Zdigits2 (Zpos p)).
    rewrite Zdigits2_log2 by lia.
    assert (Z.log2 (Zpos p) < 53) by (apply Z.log2_lt_pow2; lia). lia. }
  destruct (shl_align_spec p 0 (fexp64 (Zpos (digits2_pos p) + 0))) as [He Hm].
  destruct (shl_align p 0 _) as [mz ez]. simpl in He, Hm.
  assert (Hez : ez = Zpos (digits2_pos p) - 53) by (unfold fexp64 in He; lia).
  assert (Hdig : Zdigits2 (Zpos mz) = Zpos (digits2_pos p) - ez).
  { rewrite Hm. replace (0 - Z.min 0 _) with (- ez) by lia.
    rewrite digits_mul_pow2 by lia. simpl. lia. }
  rewrite round_aux_exact.
  - replace (fexp64 (Zdigits2 (Zpos mz) + ez) - ez) with 0
      by (rewrite Hdig; unfold fexp64; lia).
    simpl Z.max. rewrite Z.pow_0_r, Z.div_1_r, Z.add_0_r.
    destruct (ez <=? 971) eqn:Hle; [| apply Z.leb_gt in Hle; lia].
    exists mz, ez. simpl. split; [done |]. split; [lia |].
    rewrite Hm. f_equal. f_equal. lia.
  - left. rewrite Hdig. unfold fexp64. lia.
Qed.

Local Open Scope Q_scope.

Lemma pow2_nonneg e : (0 <= e)%Z -> 2 ^ e == inject_Z (2 ^ e).
Proof. intros He. by rewrite Zpower_Qpower. Qed.

Lemma pow2_pos e : 0 < 2 ^ e.
Proof. by apply Qpower_0_lt. Qed.

Lemma pow2_add a b : 2 ^ (a + b) == 2 ^ a * 2 ^ b.
Proof. by apply Qpower_plus. Qed.

Lemma magnitude_pos m e : 0 < Num.magnitude m e.
Proof.
  unfold Num.magnitude. apply Qmult_lt_0_compat; [| apply pow2_pos].
  unfold Qlt. simpl. lia.
Qed.

Lemma magnitude_mul m1 e1 m2 e2 :
  Num.magnitude (m1 * m2) (e1 + e2) == Num.magnitude m1 e1 * Num.magnitude m2 e2.
Proof.
  unfold Num.magnitude. rewrite Pos2Z.inj_mul, inject_Z_mult, pow2_add. ring.
Qed.

(** Moving binary zeros from the mantissa to the exponent keeps the value. *)
Lemma magnitude_shift m m' e k :
  (0 <= k)%Z -> Zpos m = (Zpos m' * 2 ^ k)%Z ->
  Num.magnitude m' (e + k) == Num.magnitude m e.
Proof.
  intros Hk Hm. unfold Num.magnitude.
  rewrite Hm, inject_Z_mult, pow2_add, <- (pow2_nonneg k) by done. ring.
Qed.

Lemma Integral_value m e : Integral m e -> exists z, Num.magnitude m e == inject_Z z.
Proof.
  intros [He | [q Hq]].
  - exists (Zpos m * 2 ^ e)%Z. unfold Num.magnitude.
    by rewrite inject_Z_mult, pow2_nonneg.
  - destruct (Z.le_gt_cases 0 e) as [He | He].
    + exists (Zpos m * 2 ^ e)%Z. unfold Num.magnitude.
      by rewrite inject_Z_mult, pow2_nonneg.
    + exists q. unfold Num.magnitude.
      rewrite Hq, inject_Z_mult, <- (pow2_nonneg (- e)) by lia.
      rewrite <- Qmult_assoc, <- pow2_add.
      replace (- e + e)%Z with 0%Z by lia. simpl. ring.
Qed.

Lemma magnitude_lt_pow m e :
  Num.magnitude m e < inject_Z (2 ^ 53) -> (e <= 53)%Z /\ (Zpos m < 2 ^ (53 - e))%Z.
Proof.
  unfold Num.magnitude. intros H.
  destruct (Z.le_gt_cases 0 e) as [He | He].
  - rewrite pow2_nonneg, <- inject_Z_mult in H by done.
    rewrite <- Zlt_Qlt in H.
    assert (HP : (0 < 2 ^ e)%Z) by (apply Z.pow_pos_nonneg; lia).
    assert (Hle : (e <= 53)%Z).
    { destruct (Z.le_gt_cases e 53) as [|Hgt]; [done |].
      assert ((2 ^ 53 < 2 ^ e)%Z) by (apply Z.pow_lt_mono_r; lia). nia. }
    split; [done |].
    replace (2 ^ 53)%Z with (2 ^ (53 - e) * 2 ^ e)%Z in H.
    + by apply Z.mul_lt_mono_pos_r in H.
    + rewrite <- Z.pow_add_r by lia. f_equal. lia.
  - split; [lia |].
    apply (Qmult_lt_r _ _ (2 ^ (- e))) in H; [| apply pow2_pos].
    assert (Hl : inject_Z (Zpos m) * 2 ^ e * 2 ^ (- e) == inject_Z (Zpos m)).
    { rewrite <- Qmult_assoc, <- pow2_add.
      replace (e + - e)%Z with 0%Z by lia. simpl. ring. }
    assert (Hr : inject_Z (2 ^ 53) * 2 ^ (- e) == inject_Z (2 ^ (53 - e))).
    { rewrite (pow2_nonneg (- e)) by lia.
      rewrite <- inject_Z_mult, <- Z.pow_add_r by lia.
      by replace (53 + - e)%Z with (53 - e)%Z by lia. }
    rewrite Hl, Hr in H. by rewrite <- Zlt_Qlt in H.
Qed.

(** An integer below 2^53 is not rounded. *)
Lemma round_aux_small s M E :
  Integral M E -> Num.magnitude M E < inject_Z (2 ^ 53) ->
  exists m e,
    binary_round_aux Num.prec Num.emax s (Zpos M) E loc_Exact = S754_finite s m e
    /\ Num.magnitude m e == Num.magnitude M E.
Proof.
  intros HI Hlt. destruct (magnitude_lt_pow M E Hlt) as [HE HM].
  assert (HD : (Zdigits2 (Zpos M) + E <= 53)%Z).
  { rewrite Zdigits2_log2 by lia.
    assert ((Z.log2 (Zpos M) < 53 - E)%Z) by (apply Z.log2_lt_pow2; lia). lia. }
  set (n := (fexp64 (Zdigits2 (Zpos M) + E) - E)%Z).
  assert (HF : (n + E <= 0)%Z) by (unfold n, fexp64; lia).
  assert (Hn : (n <= 0)%Z \/ Z.divide (2 ^ n) (Zpos M)).
  { destruct (Z.le_gt_cases n 0); [by left | right].
    destruct HI as [HI | HI]; [lia |].
    etrans; [| exact HI]. apply pow2_divide. lia. }
  rewrite (round_aux_exact s M E Hn). fold n.
  set (k := Z.max 0 n).
  assert (Hk : (0 <= k)%Z) by lia.
  assert (Hdiv : Z.divide (2 ^ k) (Zpos M)).
  { unfold k. destruct Hn as [Hn | Hn].
    - rewrite Z.max_l by lia. apply Z.divide_1_l.
    - destruct (Z.le_gt_cases n 0).
      + rewrite Z.max_l by lia. apply Z.divide_1_l.
      + by rewrite Z.max_r by lia. }
  destruct (E + k <=? 971)%Z eqn:Hle; [| apply Z.leb_gt in Hle; lia].
  eexists _, _. split; [reflexivity |].
  apply magnitude_shift; [done |].
  destruct Hdiv as [q Hq].
  assert (HP : (0 < 2 ^ k)%Z) by (apply Z.pow_pos_nonneg; lia).
  rewrite Hq, Z.div_mul by lia.
  rewrite Z2Pos.id by nia. done.
Qed.

(** [clientWidth] as a number: exact. *)
Lemma of_long_small n :
  (n < 2 ^ 53)%N ->
  (n = 0%N /\ Num.of_long n = S754_zero false)
  \/ exists m e,
       Num.of_long n = S754_finite false m e
       /\ Integral m e
       /\ Num.magnitude m e == inject_Z (Z.of_N n).
Proof.
  intros Hn. destruct n as [|p].
  { left. split. reflexivity. vm_compute. reflexivity. }
  right.
  destruct (binary_round_small p) as (m & e & Hr & He & Hm); [lia |].
  exists m, e. split; [exact Hr |]. split.
  - right. exists (Zpos p). exact Hm.
  - rewrite <- (magnitude_shift m p e (- e)) by (lia || done).
    replace (e + - e)%Z with 0%Z by lia.
    unfold Num.magnitude. simpl. ring.
Qed.

(** The product of a client length and a finite density: its sign is the
    density's, and it is an integer when the density is, unless it
    overflows. *)
Lemma mul_of_long cw d :
  (cw < 2 ^ 53)%N -> Num.is_finite d = true ->
  let r := Num.mul (Num.of_long cw) d in
  (exists s, r = S754_zero s)
  \/ r = S754_infinity (negb (Num.nonneg d))
  \/ exists m e,
       r = S754_finite (negb (Num.nonneg d)) m e
       /\ (Num.is_integer d = true -> Integral m e).
Proof.
  intros Hcw Hd r. subst r.
  destruct (of_long_small cw Hcw) as [[_ ->] | (mx & ex & -> & Hx & _)].
  { left. destruct d; try done; by eexists. }
  destruct d as [sd | | | sd my ey]; try done.
  { left. by eexists. }
  unfold Num.mul, SFmul. simpl xorb. simpl Num.nonneg. rewrite negb_involutive.
  destruct (round_aux_cases sd (mx * my) (ex + ey)) as [H | [H | (m & e & H & _)]].
  - left. by eexists.
  - right. by left.
  - right. right. exists m, e. split; [exact H |].
    intros Hi%is_integer_Integral.
    eapply round_aux_integral; [| exact H]. by apply Integral_mul.
Qed.

Lemma mul_nonneg cw d :
  (cw < 2 ^ 53)%N -> Num.is_finite d = true -> Num.nonneg d = true ->
  Num.nonneg (Num.mul (Num.of_long cw) d) = true.
Proof.
  intros Hcw Hf Hn.
  destruct (mul_of_long cw d Hcw Hf) as [[s ->] | [-> | (m & e & -> & _)]];
    simpl; by rewrite ?Hn.
Qed.

Lemma mul_integer cw d :
  (cw < 2 ^ 53)%N -> Num.is_integer d = true ->
  Num.is_integer (Num.mul (Num.of_long cw) d) = true
  \/ Num.mul (Num.of_long cw) d = S754_infinity (negb (Num.nonneg d)).
Proof.
  intros Hcw Hi.
  assert (Hf : Num.is_finite d = true) by (by destruct d).
  destruct (mul_of_long cw d Hcw Hf) as [[s ->] | [-> | (m & e & -> & HI)]].
  - by left.
  - by right.
  - left. by apply is_integer_Integral, HI.
Qed.

Lemma value_finite s m e :
  Num.value (S754_finite s m e) == (if s then - Num.magnitude m e else Num.magnitude m e).
Proof. reflexivity. Qed.

(** Below 2^53 the product of a client length and an integer density is
    the product of the two numbers. *)
Lemma mul_exact cw d :
  (cw < 2 ^ 53)%N -> Num.is_integer d = true ->
  inject_Z (Z.of_N cw) * Qabs (Num.value d) < inject_Z (2 ^ 53) ->
  Num.is_finite (Num.mul (Num.of_long cw) d) = true
  /\ Num.value (Num.mul (Num.of_long cw) d) == inject_Z (Z.of_N cw) * Num.value d.
Proof.
  intros Hcw Hi Hlt.
  destruct (of_long_small cw Hcw) as [[-> ->] | (mx & ex & -> & Hx & Hmx)].
  { destruct d; try done; simpl; split; try done; ring. }
  destruct d as [sd | | | sd my ey]; try done.
  { simpl. split; [done | ring]. }
  apply is_integer_Integral in Hi.
  assert (Hmag : Num.magnitude (mx * my) (ex + ey) < inject_Z (2 ^ 53)).
  { rewrite magnitude_mul, Hmx.
    assert (Habs : Qabs (Num.value (S754_finite sd my ey)) == Num.magnitude my ey).
    { pose proof (magnitude_pos my ey) as Hpos. simpl.
      destruct sd; [rewrite Qabs_opp |]; apply Qabs_pos; by apply Qlt_le_weak. }
    by rewrite <- Habs. }
  destruct (round_aux_small sd (mx * my) (ex + ey)) as (m & e & Hr & Hv);
    [by apply Integral_mul | done |].
  unfold Num.mul, SFmul. simpl xorb. rewrite Hr. split; [done |].
  destruct sd; cbn [Num.value]; rewrite Hv, magnitude_mul, Hmx; ring.
Qed.

Lemma value_nonneg x : Num.nonneg x = true -> 0 <= Num.value x.
Proof.
  destruct x as [| | |[] m e]; simpl; try done.
  intros _. apply Qlt_le_weak, magnitude_pos.
Qed.

Lemma integer_value x : Num.is_integer x = true -> exists z, Num.value x == inject_Z z.
Proof.
  destruct x as [s | | | s m e]; try done.
  - by exists 0%Z.
  - intros Hi%is_integer_Integral. destruct (Integral_value m e Hi) as [z Hz].
    destruct s; [exists (- z)%Z | exists z]; cbn [Num.value]; rewrite Hz; [| done].
    by rewrite inject_Z_opp.
Qed.

(** Below 10^21 [toFixed(0)] of a number that is not negative prints the
    nearest natural number. *)
Lemma toFixed0_digits x :
  Num.nonneg x = true -> Num.below_1e21 x = true ->
  Num.toFixed0 x = Num.digits (Num.round (Num.value x)).
Proof.
  destruct x as [s | | |[] m e]; try done.
  simpl. intros _ Hb. apply negb_true_iff in Hb.
  unfold Num.toFixed0. by rewrite Hb.
Qed.

Lemma round_floor x : 0 <= x -> Z.of_N (Num.round x) = Qfloor (x + (1 # 2)).
Proof.
  intros Hx. unfold Num.round. apply Z2N.id.
  rewrite <- (Qfloor_Z 0). apply Qfloor_resp_le.
  change (inject_Z 0) with 0.
  apply Qle_trans with x; [done |].
  rewrite <- (Qplus_0_r x) at 1. apply Qplus_le_r. done.
Qed.

(** Rounding moves a number by at most one half. *)
Lemma round_near x :
  0 <= x ->
  x - (1 # 2) < inject_Z (Z.of_N (Num.round x))
  /\ inject_Z (Z.of_N (Num.round x)) <= x + (1 # 2).
Proof.
  intros Hx. rewrite round_floor by done.
  split; [| apply Qfloor_le].
  pose proof (Qlt_floor (x + (1 # 2))) as Hlt.
  rewrite inject_Z_plus in Hlt.
  apply Qplus_lt_l with (z := 1).
  eapply Qle_lt_trans; [| exact Hlt].
  ring_simplify. apply Qle_refl.
Qed.

(** Rounding leaves an integer as it is. *)
Lemma round_integer x z :
  0 <= x -> x == inject_Z z -> inject_Z (Z.of_N (Num.round x)) == x.
Proof.
  intros Hx Hz. rewrite round_floor by done.
  assert (Hfl : Qfloor (inject_Z z + (1 # 2)) = z).
  { pose proof (Qfloor_le (inject_Z z + (1 # 2))) as Hle.
    pose proof (Qlt_floor (inject_Z z + (1 # 2))) as Hlt.
    set (f := Qfloor (inject_Z z + (1 # 2))) in *.
    unfold Qle, Qlt in *. simpl in *. lia. }
  rewrite (Qfloor_comp (x + (1 # 2)) (inject_Z z + (1 # 2))).
  - rewrite Hfl. symmetry. exact Hz.
  - apply Qplus_comp; [exact Hz | reflexivity].
Qed.

Lemma inject_N_nonneg n : 0 <= inject_Z (Z.of_N n).
Proof. unfold Qle. simpl. lia. Qed.

Lemma below_small x :
  Num.is_finite x = true -> Qabs (Num.value x) < inject_Z (2 ^ 53) ->
  Num.below_1e21 x = true.
Proof.
  destruct x as [s | | | s m e]; try done.
  intros _ Hlt. simpl. apply negb_true_iff.
  destruct (Qle_bool _ _) eqn:Hle; [exfalso | done].
  apply Qle_bool_iff in Hle.
  assert (Habs : Qabs (Num.value (S754_finite s m e)) == Num.magnitude m e).
  { pose proof (magnitude_pos m e) as Hpos. cbn [Num.value].
    destruct s; [rewrite Qabs_opp |]; apply Qabs_pos; by apply Qlt_le_weak. }
  rewrite Habs in Hlt.
  assert (H : Num.ten21 < inject_Z (2 ^ 53)) by (eapply Qle_lt_trans; eauto).
  unfold Num.ten21 in H. rewrite <- Zlt_Qlt in H. lia.
Qed.

Lemma of_long_value n : (n < 2 ^ 53)%N -> Num.value (Num.of_long n) == inject_Z (Z.of_N n).
Proof.
  intros Hn. destruct (of_long_small n Hn) as [[-> ->] | (m & e & -> & _ & Hm)]; [done |].
  exact Hm.
Qed.

Lemma of_long_kind n :
  (n < 2 ^ 53)%N ->
  Num.is_integer (Num.of_long n) = true /\ Num.is_density (Num.of_long n) = true.
Proof.
  intros Hn. destruct (of_long_small n Hn) as [[-> ->] | (m & e & -> & HI & _)]; [done |].
  split; [by apply is_integer_Integral | done].
Qed.

(** At an integer density the pixel size is the product of the integers,
    and the attribute is that product in decimal digits. *)
Lemma scaled_integer cw k :
  (cw < 2 ^ 53)%N -> (k < 2 ^ 53)%N -> (cw * k < 2 ^ 53)%N ->
  let x := Num.mul (Num.of_long cw) (Num.of_long k) in
  Num.is_finite x = true
  /\ Num.nonneg x = true
  /\ Num.value x == inject_Z (Z.of_N (cw * k))
  /\ Num.toFixed0 x = Num.digits (cw * k).
Proof.
  intros Hcw Hk Hck x.
  destruct (of_long_kind k Hk) as [Hint [Hfin Hnn]%andb_true_iff].
  pose proof (of_long_value k Hk) as Hval.
  assert (Hlt : inject_Z (Z.of_N cw) * Qabs (Num.value (Num.of_long k)) < inject_Z (2 ^ 53)).
  { assert (Habs : Qabs (Num.value (Num.of_long k)) == inject_Z (Z.of_N k)).
    { rewrite (Qabs_wd _ _ Hval). apply Qabs_pos, inject_N_nonneg. }
    rewrite Habs, <- inject_Z_mult, <- Zlt_Qlt. lia. }
  destruct (mul_exact cw (Num.of_long k) Hcw Hint Hlt) as [Hf Hv].
  fold x in Hf, Hv.
  assert (Hx : Num.value x == inject_Z (Z.of_N (cw * k))).
  { by rewrite Hv, Hval, <- inject_Z_mult, N2Z.inj_mul. }
  assert (Hn : Num.nonneg x = true) by (by apply mul_nonneg).
  split; [done |]. split; [done |]. split; [done |].
  rewrite toFixed0_digits; [| done |].
  - f_equal. apply N2Z.inj.
    pose proof (round_integer (Num.value x) _ (value_nonneg x Hn) Hx) as Hr.
    pose proof (Qeq_trans _ _ _ Hr Hx) as Hr'.
    unfold Qeq in Hr'. simpl in Hr'. lia.
  - apply below_small; [done |].
    rewrite (Qabs_wd _ _ Hx), Qabs_pos by apply inject_N_nonneg.
    rewrite <- Zlt_Qlt. lia.
Qed.

End NumberFacts.

Section Laying.

Context {U Exn C : Type} `{!Freeable U Exn C}.
Variable props : CanvasProps U Exn C.
Variable L : N -> N -> number -> Prop.
Implicit Types (w : World U Exn C) (s : Scope C) (tr pre post : list (event Exn C)).

Lemma step_Laid a w : Inv w -> Laid L w -> action_ok L a -> Laid L (step props a w).
Proof.
  intros HI (Hl & Hw & Hm) Ha.
  destruct (step_log props a w HI) as (evs & Htr & Hwr & Hctx & Hmnt & Hlay).
  split; [| split].
  - rewrite Hlay. by destruct a.
  - rewrite Htr, writes_app. apply Forall_app. split; [done |].
    destruct Hwr as [-> | ->]; [constructor |].
    repeat constructor. by eexists _, _, _.
  - intros s' Hs'. destruct (w_scope w) as [s|] eqn:Hs.
    + destruct (Hctx s eq_refl) as (s'' & Hs'' & Hc).
      rewrite Hs' in Hs''. injection Hs'' as <-.
      destruct (Hm s eq_refl) as (cw & ch & dpr & rest & HL & Hrest).
      exists cw, ch, dpr, (rest ++ evs). split; [done |].
      by rewrite Htr, Hrest, Hc, app_assoc.
    + rewrite (Hmnt s' eq_refl Hs') in Htr.
      assert (Hnil : trace (w_host w) = []).
      { unfold Inv in HI. rewrite Hs in HI.
        destruct (w_phase w) eqn:Hp; try done.
        - by destruct HI as (_ & _ & _ & ->).
        - destruct (failed_step props a w Hp Hs) as (_ & Hnone & _). congruence. }
      rewrite Hnil in Htr. simpl in Htr.
      eexists _, _, _, []. split; [exact Hl |]. by rewrite app_nil_r.
Qed.

Lemma run_Laid acts w :
  Inv w -> Laid L w -> Forall (action_ok L) acts -> Laid L (run props acts w).
Proof.
  revert w. induction acts as [|a acts IH]; intros w HI Hl Hacts; [done |].
  apply Forall_cons in Hacts as [Ha Hacts].
  apply IH; [by apply step_Inv | by apply step_Laid | done].
Qed.

Lemma reachable_Laid acts cv dpr u :
  L (clientWidth cv) (clientHeight cv) dpr -> Forall (action_ok L) acts ->
  Laid L (run props acts (initial cv dpr u)).
Proof.
  intros Hl Hacts. apply run_Laid; [apply initial_Inv | | done].
  split; [done |]. split; [constructor | done].
Qed.

End Laying.

(** * Recomputing the size *)

Section Recomputing.

Context {U Exn C : Type} `{!Freeable U Exn C}.
Variable props : CanvasProps U Exn C.
Implicit Types (w : World U Exn C) (s : Scope C) (l : Live U Exn C).

Ltac solve_resize :=
  norm_trace;
  first
    [ eexists; split; [reflexivity |]
    | exists []; split; [by rewrite app_nil_r |] ];
  (split;
   [ first
       [ left; split; reflexivity
       | right;
         first
           [ eexists [_], _, _; split; [reflexivity |]; repeat split; reflexivity
           | eexists [_; _], _, _; split; [reflexivity |]; repeat split; reflexivity ] ]
   | ]);
  split;
  [ intros Hph Hact (c' & u'' & Hinit); try discriminate; try congruence;
    reflexivity
  | intros Hph (type' & Hact & Hview); try discriminate;
    try (injection Hact as <-; congruence); reflexivity ].

(** What one step of a run does to [size] and to the attributes. *)
Lemma step_resize a w :
  Inv w ->
  let cvs := canvas (w_host w) in
  let sz := scaled (clientWidth cvs) (clientHeight cvs) (devicePixelRatio (w_host w)) in
  let w' := step props a w in
  exists evs,
    trace (w_host w') = trace (w_host w) ++ evs
    /\ ((writes evs = [] /\ attributes (canvas (w_host w')) = attributes cvs)
        \/ exists pre post s',
             evs = pre ++ recomputed sz ++ post
             /\ writes evs = [sz]
             /\ w_scope w' = Some s' /\ size s' = sz
             /\ attributes (canvas (w_host w'))
                = <["height" := Num.toFixed0 sz.2]>
                    (<["width" := Num.toFixed0 sz.1]> (attributes cvs)))
    /\ (w_phase w = Unbound -> a = AMount ->
        (exists c u', init props cvs (user (w_host w)) = (Ok c, u')) ->
        writes evs = [sz])
    /\ (w_phase w = Running ->
        (exists type, a = AEvent type /\ is_viewport type = true) ->
        writes evs = [sz]).
Proof.
  step_cases props a w ltac:(solve_resize).
Qed.

(** C4.  In every run, whatever happens next either leaves [size] and the
    attributes alone or recomputes the size once: it assigns to [size] the
    client width and height of the canvas times the pixel density, as they
    are at that moment, and sets the [width] and [height] attributes to the
    two components as [toFixed(0)] prints them.  The mount recomputes the
    size, and so does every [resize] or [orientationchange] event while the
    component is running.  The products are binary64 products; at an integer
    density they are the products of the integers, and the attributes are
    those in decimal digits, up to 2^53.  At 320 x 200 and density 2 the
    mount writes (640, 400); when the client size then becomes 400 x 200,
    handling the [resize] event writes (800, 400). *)
Theorem resize_writes_scaled_size :
  (forall acts cv dpr u a,
     let w := run props acts (initial cv dpr u) in
     let cvs := canvas (w_host w) in
     let sz := scaled (clientWidth cvs) (clientHeight cvs) (devicePixelRatio (w_host w)) in
     let w' := step props a w in
     exists evs,
       trace (w_host w') = trace (w_host w) ++ evs
       /\ ((writes evs = [] /\ attributes (canvas (w_host w')) = attributes cvs)
           \/ exists pre post s',
                evs = pre ++ recomputed sz ++ post
                /\ writes evs = [sz]
                /\ w_scope w' = Some s' /\ size s' = sz
                /\ attributes (canvas (w_host w'))
                   = <["height" := Num.toFixed0 sz.2]>
                       (<["width" := Num.toFixed0 sz.1]> (attributes cvs)))
       /\ (w_phase w = Unbound -> a = AMount ->
           (exists c u', init props cvs (user (w_host w)) = (Ok c, u')) ->
           writes evs = [sz])
       /\ (w_phase w = Running ->
           (exists type, a = AEvent type /\ is_viewport type = true) ->
           writes evs = [sz]))
  /\ (forall cw ch k : N,
        is_long cw -> is_long ch ->
        (k < 2 ^ 53)%N -> (cw * k < 2 ^ 53)%N -> (ch * k < 2 ^ 53)%N ->
        let sz := scaled cw ch (Num.of_long k) in
        (Num.value sz.1 == inject_Z (Z.of_N (cw * k))
         /\ Num.value sz.2 == inject_Z (Z.of_N (ch * k)))%Q
        /\ Num.toFixed0 sz.1 = Num.digits (cw * k)
        /\ Num.toFixed0 sz.2 = Num.digits (ch * k))
  /\ (let w1 := run (Demo.props 100) [AMount] (Demo.start 320 200 2) in
      let w2 := run (Demo.props 100) [ALayout 400 200 2; AEvent "resize"] w1 in
      writes (trace (w_host w1)) = [(640, 400)%num]
      /\ attributes (canvas (w_host w1)) !! "width" = Some "640"
      /\ attributes (canvas (w_host w1)) !! "height" = Some "400"
      /\ writes (trace (w_host w2)) = [(640, 400)%num; (800, 400)%num]
      /\ attributes (canvas (w_host w2)) !! "width" = Some "800"
      /\ attributes (canvas (w_host w2)) !! "height" = Some "400").
Proof.
  split; [| split].
  - intros acts cv dpr u a w. apply step_resize, reachable_Inv.
  - intros cw ch k Hcw Hch Hk Hcwk Hchk sz. unfold is_long in Hcw, Hch.
    destruct (scaled_integer cw k) as (_ & _ & Hv1 & Hd1); [lia | done | done |].
    destruct (scaled_integer ch k) as (_ & _ & Hv2 & Hd2); [lia | done | done |].
    done.
  - vm_compute. repeat split.
Qed.

End Recomputing.

Section TraceMembership.

Context {Exn C : Type}.
Implicit Types (tr pre post : list (event Exn C)).

Lemma last_size_in_writes tr : 0 < count is_write tr -> last_size tr ∈ writes tr.
Proof.
  intros Hpos.
  destruct (count_last_split is_write tr Hpos) as (p1 & e & p2 & -> & He & Hp2).
  destruct e; try discriminate.
  rewrite last_size_split by done. rewrite writes_app. simpl.
  apply elem_of_app. right. apply list_elem_of_here.
Qed.

Lemma writes_prefix pre post sz : sz ∈ writes pre -> sz ∈ writes (pre ++ post).
Proof. intros H. rewrite writes_app. apply elem_of_app. by left. Qed.

(** A log that begins with [P] and has an event satisfying [p] somewhere,
    where no event of [P] satisfies [p], has all of [P] before that event. *)
Lemma prefix_before (p : event Exn C -> bool) P rest pre e post :
  P ++ rest = pre ++ e :: post -> count p P = 0 -> p e = true ->
  exists rest', pre = P ++ rest'.
Proof.
  revert pre. induction P as [|a P IH]; intros pre Heq Hcount He.
  - by exists pre.
  - simpl in Hcount. destruct (p a) eqn:Ha; [lia |].
    destruct pre as [|b pre]; simpl in Heq.
    + injection Heq as -> _. congruence.
    + injection Heq as -> Heq.
      destruct (IH pre Heq) as (rest' & ->); [lia | done |].
      by exists rest'.
Qed.

End TraceMembership.

Section Sizes.

Context {U Exn C : Type} `{!Freeable U Exn C}.
Variable props : CanvasProps U Exn C.
Implicit Types (w : World U Exn C) (s : Scope C).

Lemma properb_spec cw ch dpr : properb cw ch dpr = true <-> proper cw ch dpr.
Proof.
  unfold properb, proper, is_long. rewrite !andb_true_iff, !N.ltb_lt. tauto.
Qed.

Lemma proper_run_ok cv dpr acts :
  proper_run cv dpr acts = true ->
  proper (clientWidth cv) (clientHeight cv) dpr /\ Forall proper_action acts.
Proof.
  unfold proper_run. intros [H0 Hacts]%andb_true_iff.
  split; [by apply properb_spec |].
  apply Forall_forall. intros a Ha.
  rewrite forallb_forall in Hacts. apply list_elem_of_In, Hacts in Ha.
  destruct a; try done. by apply properb_spec.
Qed.

Lemma pixel_size_scaled (had_layout : N -> N -> number -> Prop) cw ch dpr :
  had_layout cw ch dpr -> proper cw ch dpr -> pixel_size had_layout (scaled cw ch dpr).
Proof.
  intros Hhad (Hcw & Hch & [Hfin Hnn]%andb_true_iff). unfold is_long in Hcw, Hch.
  exists cw, ch, dpr. split; [done |]. split; [done |]. simpl.
  split; [apply mul_nonneg; [lia | done | done] |].
  split; [apply mul_nonneg; [lia | done | done] |].
  intros Hint. unfold whole.
  pose proof (mul_integer cw dpr ltac:(lia) Hint) as H1.
  pose proof (mul_integer ch dpr ltac:(lia) Hint) as H2.
  rewrite Hnn in H1, H2. done.
Qed.

(** C5, as the code has it.  [size] holds the binary64 products of the
    client width and height with the pixel density of a layout that the
    canvas had: its components are not negative, and they are integers (or
    infinite, when the product is too large for binary64) whenever that
    density is an integer; with another density they need not be.  [paint]
    receives such a pair.  The [width] and [height] attributes hold the
    components as [toFixed(0)] prints them: below 10^21, the nearest natural
    number in decimal digits. *)
Theorem sizes_nonneg_attributes_natural acts cv dpr u :
  proper_run cv dpr acts = true ->
  let w := run props acts (initial cv dpr u) in
  let tr := trace (w_host w) in
  let sized := pixel_size (had (clientWidth cv) (clientHeight cv) dpr acts) in
  Forall sized (writes tr)
  /\ (forall pre c x y post, tr = pre ++ EvPaint c x y :: post -> sized (x, y))
  /\ (forall s,
        w_scope w = Some s ->
        sized (size s)
        /\ attributes (canvas (w_host w)) !! "width" = Some (Num.toFixed0 (size s).1)
        /\ attributes (canvas (w_host w)) !! "height" = Some (Num.toFixed0 (size s).2)
        /\ (Num.below_1e21 (size s).1 = true ->
            Num.toFixed0 (size s).1 = Num.digits (Num.round (Num.value (size s).1)))
        /\ (Num.below_1e21 (size s).2 = true ->
            Num.toFixed0 (size s).2 = Num.digits (Num.round (Num.value (size s).2)))).
Proof.
  intros Hrun w tr sized.
  destruct (proper_run_ok cv dpr acts Hrun) as [H0 Hacts].
  set (had_layout := had (clientWidth cv) (clientHeight cv) dpr acts) in *.
  pose proof (reachable_Laid props
                (fun cw ch d => had_layout cw ch d /\ proper cw ch d) acts cv dpr u)
    as (_ & Hw & _).
  { split; [by left | done]. }
  { apply Forall_forall. intros a Ha. rewrite Forall_forall in Hacts.
    specialize (Hacts a Ha). destruct a; try done. split; [by right | done]. }
  pose proof (reachable_Inv props acts cv dpr u) as HI.
  fold w in Hw, HI. fold tr in Hw.
  assert (Hgood : Forall sized (writes tr)).
  { eapply Forall_impl; [exact Hw |].
    intros sz (cw & ch & d & [Hhad Hprop] & ->). by apply pixel_size_scaled. }
  assert (Hin : forall sz, sz ∈ writes tr -> sized sz).
  { by apply Forall_forall. }
  split; [done |]. split.
  - intros pre c x y post Htr.
    destruct (paint_called props acts cv dpr u pre c x y post Htr)
      as (s & _ & _ & _ & Hsz & Hpos).
    apply Hin. rewrite Htr. apply writes_prefix.
    rewrite <- Hsz. by apply last_size_in_writes.
  - intros s Hs. destruct (Inv_scope w s HI Hs) as [HB _].
    assert (Hsz : sized (size s)).
    { apply Hin. rewrite <- (bound_size _ _ HB).
      apply last_size_in_writes.
      pose proof (bound_writes _ _ HB) as Hbw. unfold tr. lia. }
    split; [done |].
    split; [exact (bound_width _ _ HB) |]. split; [exact (bound_height _ _ HB) |].
    destruct Hsz as (cw & ch & d & _ & _ & Hx & Hy & _).
    split; intros Hb; by apply toFixed0_digits.
Qed.

Lemma had_ok cw0 ch0 dpr0 acts :
  Forall (action_ok (had cw0 ch0 dpr0 acts)) acts.
Proof.
  apply Forall_forall. intros a Ha. destruct a; try done. by right.
Qed.
(** C10.  Whenever [paint] is called, the whole mount, with its write of
    [size], is already in the log, so the call comes after that write; and
    what [paint] receives is the scaled size of a layout that the canvas had
    during the run, the one of the latest write. *)
Theorem paint_after_mount_write acts cv dpr u pre c x y post :
  trace (w_host (run props acts (initial cv dpr u))) = pre ++ EvPaint c x y :: post ->
  let had_layout := had (clientWidth cv) (clientHeight cv) dpr acts in
  (exists cw0 ch0 dpr0 rest,
     had_layout cw0 ch0 dpr0 /\ pre = mount_log c cw0 ch0 dpr0 ++ rest)
  /\ (exists cw1 ch1 dpr1,
        had_layout cw1 ch1 dpr1 /\ (x, y) = scaled cw1 ch1 dpr1)
  /\ 0 < count is_write pre
  /\ last_size pre = (x, y).
Proof.
  intros Htr had_layout.
  destruct (paint_called props acts cv dpr u pre c x y post Htr)
    as (s & Hs & -> & _ & Hsz & Hpos).
  destruct (reachable_Laid props had_layout acts cv dpr u) as (_ & Hw & Hm);
    [by left | apply had_ok |].
  split; [| split; [| done]].
  - destruct (Hm s Hs) as (cw0 & ch0 & dpr0 & rest & Hhad & Hlog).
    rewrite Htr in Hlog. symmetry in Hlog.
    destruct (prefix_before is_paint _ _ _ _ _ Hlog) as (rest' & ->); [done | done |].
    by exists cw0, ch0, dpr0, rest'.
  - assert (Hin : (x, y) ∈ writes (trace (w_host (run props acts (initial cv dpr u))))).
    { rewrite Htr. apply writes_prefix. rewrite <- Hsz. by apply last_size_in_writes. }
    rewrite Forall_forall in Hw. destruct (Hw _ Hin) as (cw1 & ch1 & dpr1 & Hhad & Heq).
    by exists cw1, ch1, dpr1.
Qed.

End Sizes.

(** * The model on concrete inputs *)

Example toFixed0_integer : Num.toFixed0 640 = "640".
Proof. vm_compute. reflexivity. Qed.

Example toFixed0_tie : Num.toFixed0 (Num.div 963 2) = "482".
Proof. vm_compute. reflexivity. Qed.

Example toFixed0_below_half : Num.toFixed0 (Num.div 1201 4) = "300".
Proof. vm_compute. reflexivity. Qed.

Example toFixed0_negative_tie : Num.toFixed0 (Num.div (-5) 2) = "-3".
Proof. vm_compute. reflexivity. Qed.

(** A negative number that rounds to zero keeps its sign; zero does not. *)
Example toFixed0_negative_zero :
  Num.toFixed0 (Num.div (-2) 5) = "-0" /\ Num.toFixed0 (S754_zero true) = "0".
Proof. vm_compute. done. Qed.

(** The product is rounded to binary64: 315 times the number nearest to 1.7
    is 535.5, though that number is below 1.7. *)
Example mul_rounds :
  Num.mul (Num.of_long 315) (Num.div 17 10) = Num.div 1071 2
  /\ (Num.value (Num.div 17 10) < 17 # 10)%Q
  /\ Num.toFixed0 (Num.mul (Num.of_long 315) (Num.div 17 10)) = "536".
Proof. vm_compute. done. Qed.

(** From 10^21 on [toFixed(0)] prints an exponent. *)
Example toFixed0_exponent :
  Num.toFixed0 (Num.mul (Num.of_long 1000000000) 1000000000000) = "1e+21"
  /\ Num.toFixed0 (Num.mul (Num.of_long 1000000000) 999999999999)
     = "999999999999000051712"
  /\ Num.toFixed0 (Num.of_Z (2 ^ 70)) = "1.1805916207174113e+21".
Proof. vm_compute. done. Qed.

(** What is not finite prints by name. *)
Example toFixed0_not_finite :
  Num.toFixed0 (Num.mul (Num.of_long 320) (S754_infinity false)) = "Infinity"
  /\ Num.toFixed0 (Num.mul (Num.of_long 0) (S754_infinity false)) = "NaN".
Proof. vm_compute. done. Qed.

(** Mount, one frame, unmount: the whole log. *)
Example cycle_log :
  trace (w_host Runs.cycle)
  = [EvInit (Ok 7); EvRequestFrame; EvSizeWrite 640 400;
     EvSetAttribute "width" "640"; EvSetAttribute "height" "400";
     EvSetTimeout 200; EvAddListener "resize"; EvAddListener "orientationchange";
     EvCall CbFrame; EvPaint 7 640 400; EvRequestFrame;
     EvDisposed; EvRemoveListener "resize"; EvRemoveListener "orientationchange";
     EvFree 7].
Proof. vm_compute. reflexivity. Qed.

(** After the unmount the queued frame callback and the timer of the mount
    still run, and do nothing. *)
Example after_unmount_log :
  trace (w_host (run (Demo.props 100) [AFrame; ATick 200; ATimer] Runs.cycle))
  = trace (w_host Runs.cycle) ++ [EvCall CbFrame; EvCall CbResize].
Proof. vm_compute. reflexivity. Qed.

(** A timer does not run before it is due. *)
Example timer_not_due :
  run (Demo.props 100) [ATick 199; ATimer] (Runs.mounted 100)
  = run (Demo.props 100) [ATick 199] (Runs.mounted 100).
Proof. vm_compute. reflexivity. Qed.

(** * The claims on concrete runs *)


Lemma no_paint_after_disposal_witness :
  w_phase Runs.cycle = Disposed
  /\ frames (w_host Runs.cycle) = [CbFrame]
  /\ trace (w_host (step (Demo.props 100) AFrame Runs.cycle))
     = trace (w_host Runs.cycle) ++ [EvCall CbFrame]
  /\ frames (w_host (step (Demo.props 100) AFrame Runs.cycle)) = [].
Proof.
  split; [reflexivity |]. split; [reflexivity |].
  apply (proj2 (proj2 (no_paint_after_disposal (Demo.props 100)
           [AMount; AFrame; AUnmount] (Demo.canvas0 320 200) 2 0)));
    reflexivity.
Defined.

Lemma paint_sees_latest_write_witness :
  trace (w_host (Runs.painted 100))
  = Runs.mounted_log ++ EvPaint 7 640 400 :: [EvRequestFrame]
  /\ exists pre1 pre2,
       Runs.mounted_log = pre1 ++ EvSizeWrite 640 400 :: pre2
       /\ count is_write pre2 = 0.
Proof.
  split; [reflexivity |].
  apply (paint_sees_latest_write (Demo.props 100) [AMount; AFrame]
           (Demo.canvas0 320 200) 2 0 Runs.mounted_log 7 640 400 [EvRequestFrame]).
  reflexivity.
Defined.

Lemma paint_failure_halts_loop_witness :
  w_scope (Runs.mounted 0) = Some (mkScope 7 (640, 400)%num false)
  /\ paint (Demo.props 0) 7 640 400 (user (w_host (Runs.mounted 0)))
     = (Throw "paint failed", 1)
  /\ frames (w_host (step (Demo.props 0) AFrame (Runs.mounted 0))) = []
  /\ forall more,
       let w'' := run (Demo.props 0) more (step (Demo.props 0) AFrame (Runs.mounted 0)) in
       frames (w_host w'') = []
       /\ count is_paint (trace (w_host w''))
          = count is_paint (trace (w_host (step (Demo.props 0) AFrame (Runs.mounted 0))))
       /\ count is_request_frame (trace (w_host w''))
          = count is_request_frame
              (trace (w_host (step (Demo.props 0) AFrame (Runs.mounted 0)))).
Proof.
  split; [reflexivity |]. split; [reflexivity |].
  apply (proj2 (paint_failure_halts_loop (Demo.props 0) [AMount]
           (Demo.canvas0 320 200) 2 0 (mkScope 7 (640, 400)%num false)
           "paint failed" 1 eq_refl eq_refl)).
Defined.

Lemma init_failure_starts_nothing_witness :
  init Demo.broken (canvas (w_host (Demo.start 320 200 2)))
    (user (w_host (Demo.start 320 200 2)))
  = (Throw "no webgl", 0)
  /\ forall acts,
       trace (w_host (run Demo.broken (AMount :: acts) (Demo.start 320 200 2)))
       = [EvInit (Throw "no webgl"); EvEscaped "no webgl"].
Proof.
  split; [reflexivity |]. intros acts.
  apply (proj2 (init_failure_starts_nothing Demo.broken
           (w_host (Demo.start 320 200 2)) "no webgl" 0 eq_refl) 2%num acts).
Defined.

Lemma resize_writes_scaled_size_witness :
  w_phase (Runs.mounted 100) = Running
  /\ is_viewport "orientationchange" = true
  /\ exists evs,
       trace (w_host (step (Demo.props 100) (AEvent "orientationchange") (Runs.mounted 100)))
       = trace (w_host (Runs.mounted 100)) ++ evs
       /\ writes evs = [(640, 400)%num].
Proof.
  split; [reflexivity |]. split; [reflexivity |].
  destruct (proj1 (resize_writes_scaled_size (Demo.props 100))
              [AMount] (Demo.canvas0 320 200) 2%num 0 (AEvent "orientationchange"))
    as (evs & Htr & _ & _ & Hev).
  pose proof (Hev eq_refl (ex_intro _ "orientationchange" (conj eq_refl eq_refl)))
    as Hw.
  exists evs. split; [exact Htr |].
  rewrite Hw. vm_compute. reflexivity.
Defined.

Lemma sizes_nonneg_attributes_natural_witness :
  proper_run (Demo.canvas0 321 200) (Num.div 3 2) [AMount; AFrame] = true
  /\ Forall (pixel_size (had 321 200 (Num.div 3 2) [AMount; AFrame]))
       (writes (trace (w_host Runs.fractional))).
Proof.
  split; [reflexivity |].
  exact (proj1 (sizes_nonneg_attributes_natural (Demo.props 100)
           [AMount; AFrame] (Demo.canvas0 321 200) (Num.div 3 2) 0 eq_refl)).
Defined.

Lemma paint_after_mount_write_witness :
  trace (w_host (Runs.painted 100))
  = Runs.mounted_log ++ EvPaint 7 640 400 :: [EvRequestFrame]
  /\ 0 < count is_write Runs.mounted_log
  /\ last_size Runs.mounted_log = (640, 400)%num.
Proof.
  split; [reflexivity |].
  apply (proj2 (proj2 (paint_after_mount_write (Demo.props 100) [AMount; AFrame]
           (Demo.canvas0 320 200) 2 0 Runs.mounted_log 7 640 400 [EvRequestFrame]
           eq_refl))).
Defined.

Lemma listeners_added_once_removed_once_witness :
  w_phase (Demo.start 320 200 2) = Unbound
  /\ init (Demo.props 100) (canvas (w_host (Demo.start 320 200 2)))
       (user (w_host (Demo.start 320 200 2)))
     = (Ok 7, 0)
  /\ w_phase (Runs.mounted 100) = Running
  /\ listeners (w_host (Runs.mounted 100)) = both_listeners
  /\ w_phase Runs.cycle = Disposed
  /\ listeners (w_host Runs.cycle) = [].
Proof.
  split; [reflexivity |]. split; [reflexivity |].
  destruct (listeners_added_once_removed_once (Demo.props 100) []
              (Demo.canvas0 320 200) 2 0 7 0 [AFrame; AUnmount] eq_refl eq_refl)
    as (_ & (H1 & H2 & _) & (H3 & H4 & _) & _).
  split; [exact H1 |]. split; [exact H2 |]. split; [exact H3 | exact H4].
Defined.

(** C3 fails as the spec has it: with one event handled and both timers
    fired before the unmount, [size] is written four times, not three; and
    when the component is unmounted before the timer of the mount fires,
    [size] is written once, not twice. *)
Lemma writes_counterexample :
  count (is_call CbRequestResize) (trace (w_host Runs.resized)) = 1
  /\ count is_write (trace (w_host Runs.resized)) = 4
  /\ count is_write (trace (w_host Runs.resized))
     <> count (is_call CbRequestResize) (trace (w_host Runs.resized)) + 2
  /\ count (is_call CbRequestResize) (trace (w_host Runs.short)) = 0
  /\ count is_write (trace (w_host Runs.short)) = 1
  /\ count is_write (trace (w_host Runs.short))
     <> count (is_call CbRequestResize) (trace (w_host Runs.short)) + 2.
Proof. vm_compute. repeat split; discriminate. Qed.

(** C5 fails as the spec has it: at client width 321 and density 1.5,
    [size] holds the width 481.5, and [paint] receives it; only the
    attribute is rounded.  And at the integer density 2^1020 the width
    320 x 2^1020 is too large for binary64: [size] holds infinity. *)
Lemma size_integer_counterexample :
  (proper_run (Demo.canvas0 321 200) (Num.div 3 2) [AMount; AFrame] = true
   /\ w_scope Runs.fractional = Some (mkScope 7 (Num.div 963 2, 300%num) false)
   /\ EvPaint 7 (Num.div 963 2) 300 ∈ trace (w_host Runs.fractional)
   /\ (Num.value (Num.div 963 2) == 963 # 2)%Q
   /\ Num.is_integer (Num.div 963 2) = false
   /\ attributes (canvas (w_host Runs.fractional)) !! "width" = Some "482")
  /\ (proper_run (Demo.canvas0 320 200) (Num.of_Z (2 ^ 1020)) [AMount] = true
      /\ Num.is_integer (Num.of_Z (2 ^ 1020)) = true
      /\ w_scope (run (Demo.props 100) [AMount]
                    (Demo.start 320 200 (Num.of_Z (2 ^ 1020))))
         = Some (mkScope 7 (S754_infinity false, S754_infinity false) false)
      /\ Num.is_integer (S754_infinity false) = false).
Proof.
  split.
  - split; [reflexivity |]. split; [reflexivity |].
    split; [| split; [| split]]; [| reflexivity | reflexivity | reflexivity].
    vm_compute. do 9 apply list_elem_of_further. apply list_elem_of_here.
  - vm_compute. repeat split.
Qed.

(** * Beyond the claims: one mount *)

Section Inert.

Context {U Exn C : Type} `{!Freeable U Exn C}.
Variable props : CanvasProps U Exn C.
Implicit Types (w : World U Exn C) (s : Scope C).

Lemma disposed_step a w :
  Inv w -> w_phase w = Disposed ->
  w_scope (step props a w) = w_scope w
  /\ user (w_host (step props a w)) = user (w_host w)
  /\ attributes (canvas (w_host (step props a w))) = attributes (canvas (w_host w))
  /\ listeners (w_host (step props a w)) = []
  /\ length (frames (w_host (step props a w))) <= length (frames (w_host w))
  /\ length (timers (w_host (step props a w))) <= length (timers (w_host w))
  /\ exists evs,
       trace (w_host (step props a w)) = trace (w_host w) ++ evs
       /\ forallb is_queued_call evs = true.
Proof.
  step_cases props a w ltac:(intros ?; try discriminate; simpl;
    repeat (split; [done || lia |]);
    first [ exists []; split; [by rewrite app_nil_r | done]
          | by eexists [_] ]).
Qed.

Lemma forallb_app_true {A} (p : A -> bool) (l1 l2 : list A) :
  forallb p l1 = true -> forallb p l2 = true -> forallb p (l1 ++ l2) = true.
Proof. intros H1 H2. by rewrite forallb_app, H1, H2. Qed.

Lemma disposed_run more w :
  Inv w -> w_phase w = Disposed ->
  w_scope (run props more w) = w_scope w
  /\ user (w_host (run props more w)) = user (w_host w)
  /\ attributes (canvas (w_host (run props more w))) = attributes (canvas (w_host w))
  /\ listeners (w_host (run props more w)) = listeners (w_host w)
  /\ length (frames (w_host (run props more w))) <= length (frames (w_host w))
  /\ length (timers (w_host (run props more w))) <= length (timers (w_host w))
  /\ exists evs,
       trace (w_host (run props more w)) = trace (w_host w) ++ evs
       /\ forallb is_queued_call evs = true.
Proof.
  revert w. induction more as [|a more IH]; intros w HI Hp.
  - repeat (split; [done |]). exists []. by rewrite app_nil_r.
  - destruct (disposed_step a w HI Hp) as (Hs & Hu & Ha & Hl & Hf & Ht & evs & Htr & Hevs).
    destruct (IH (step props a w)) as (Hs' & Hu' & Ha' & Hl' & Hf' & Ht' & evs' & Htr' & Hevs');
      [by apply step_Inv | by apply step_phase_Disposed |].
    simpl. rewrite Hs', Hu', Ha', Hl', Hs, Hu, Ha, Hl.
    destruct (Inv_Disposed w HI Hp) as (s & _ & Hd & HB).
    pose proof (bound_listeners _ _ HB) as Hls. rewrite Hd in Hls.
    repeat (split; [done || lia |]).
    exists (evs ++ evs'). split; [by rewrite Htr', Htr, app_assoc |].
    by apply forallb_app_true.
Qed.

(** X2.  Once the cleanup function has run, nothing that happens later
    reaches the caller or the page: the variables of the effect, the
    caller's state and the attributes of the canvas stay as they are, no
    listener is registered, the queues of frame callbacks and timers only
    shrink, and all that the log gains are calls of callbacks that were
    queued before, each of which returns at its guard. *)
Theorem disposed_is_inert acts cv dpr u more :
  let w := run props acts (initial cv dpr u) in
  w_phase w = Disposed ->
  let w' := run props more w in
  w_scope w' = w_scope w
  /\ user (w_host w') = user (w_host w)
  /\ attributes (canvas (w_host w')) = attributes (canvas (w_host w))
  /\ listeners (w_host w') = []
  /\ length (frames (w_host w')) <= length (frames (w_host w))
  /\ length (timers (w_host w')) <= length (timers (w_host w))
  /\ exists evs,
       trace (w_host w') = trace (w_host w) ++ evs
       /\ forallb is_queued_call evs = true.
Proof.
  intros w Hp w'.
  pose proof (reachable_Inv props acts cv dpr u) as HI. fold w in HI.
  destruct (disposed_run more w HI Hp) as (? & ? & ? & Hl & ? & ? & ?).
  destruct (Inv_Disposed w HI Hp) as (s & _ & Hd & HB).
  pose proof (bound_listeners _ _ HB) as Hls. rewrite Hd in Hls.
  subst w'. rewrite Hl, Hls. done.
Qed.

Lemma step_foreign_attribute a w (k : string) :
  k <> "width" -> k <> "height" ->
  Inv w ->
  attributes (canvas (w_host (step props a w))) !! k
  = attributes (canvas (w_host w)) !! k.
Proof.
  intros Hw Hh.
  step_cases props a w ltac:(try done; unfold setAttribute_on; simpl;
    by rewrite !lookup_insert_ne).
Qed.

(** X3.  The component sets no attribute of the canvas but [width] and
    [height]: every other attribute has, in every state, the value that
    the canvas had before the mount. *)
Theorem foreign_attributes_kept acts cv dpr u (k : string) :
  k <> "width" -> k <> "height" ->
  attributes (canvas (w_host (run props acts (initial cv dpr u)))) !! k
  = attributes cv !! k.
Proof.
  intros Hw Hh.
  assert (H : forall w, Inv w ->
            attributes (canvas (w_host (run props acts w))) !! k
            = attributes (canvas (w_host w)) !! k).
  { induction acts as [|a acts IH]; intros w HI; [done |].
    simpl. rewrite IH by (by apply step_Inv). by apply step_foreign_attribute. }
  apply (H (initial cv dpr u)), initial_Inv.
Qed.

(** X1.  The cleanup function of a running component sets [disposed],
    removes the [resize] listener, then the [orientationchange] listener,
    and calls [free] on the context last; an exception of [free] escapes
    after these.  It cancels neither the frame callback nor the timers that
    are queued, and does not touch the canvas. *)
Theorem unmount_order acts cv dpr u s :
  let w := run props acts (initial cv dpr u) in
  w_phase w = Running -> w_scope w = Some s ->
  let w' := step props AUnmount w in
  let ru := free (context s) (user (w_host w)) in
  trace (w_host w')
  = trace (w_host w)
    ++ [EvDisposed; EvRemoveListener "resize"; EvRemoveListener "orientationchange";
        EvFree (context s)]
    ++ escaped ru.1
  /\ w_phase w' = Disposed
  /\ w_scope w' = Some (mkScope (context s) (size s) true)
  /\ listeners (w_host w') = []
  /\ user (w_host w') = ru.2
  /\ frames (w_host w') = frames (w_host w)
  /\ timers (w_host w') = timers (w_host w)
  /\ canvas (w_host w') = canvas (w_host w).
Proof.
  intros w Hp Hs w' ru.
  pose proof (reachable_Inv props acts cv dpr u) as HI. fold w in HI.
  destruct (Inv_scope w s HI Hs) as [HB Hph].
  pose proof (bound_listeners _ _ HB) as Hls.
  rewrite Hp in Hph. subst w' ru. clear HI HB.
  destruct w as [[cv' dpr' ls fs ts nw u0 tr] sc ph]. simpl in *. subst sc ph.
  destruct s as [c sz d]. simpl in *.
  destruct d; [done |].
  subst ls. exec. rewrite remove_both.
  destruct (free c u0) as [[[]|e] u'] eqn:Hf; exec; rewrite <- ?app_assoc; done.
Qed.

End Inert.

Section FrameLoop.

Context {U Exn C : Type} `{!Freeable U Exn C}.
Variable props : CanvasProps U Exn C.
Implicit Types (w : World U Exn C) (s : Scope C).

Lemma paints_app (tr evs : list (event Exn C)) :
  paints (tr ++ evs) = paints tr ++ paints evs.
Proof.
  induction tr as [|e tr IH]; simpl; [done |].
  destruct e; simpl; by rewrite ?IH.
Qed.

Lemma paints_count (tr : list (event Exn C)) : length (paints tr) = count is_paint tr.
Proof.
  induction tr as [|e tr IH]; simpl; [done |].
  destruct e; simpl; by rewrite ?IH.
Qed.

Ltac solve_loop :=
  unfold Looping; simpl; try done; intros HL0;
  try match goal with HB : Bound _ _ |- _ => destruct HB end;
  try match goal with HL : Loop _ _ |- _ => destruct HL end;
  simpl in *;
  try match goal with
      | L5 : 0 < count_live is_escaped ?t -> _ |- _ =>
          destruct (Nat.eq_dec (count_live is_escaped t) 0);
          [ try match goal with
                | L4 : false = false -> _ -> _ |- _ =>
                    specialize (L4 eq_refl ltac:(assumption))
                end
          | specialize (L5 ltac:(lia)) ]
      end;
  try done;
  constructor; simpl; norm_trace;
  rewrite ?count_app, ?count_live_app, ?length_app; simpl;
  repeat match goal with H : seen_disposed _ = _ |- _ => rewrite H end; simpl;
  try done; try lia; intros; try done; try lia.

Lemma step_Looping a w : Inv w -> Looping w -> Looping (step props a w).
Proof.
  step_cases props a w ltac:(solve_loop).
Qed.

Lemma run_Looping acts w : Inv w -> Looping w -> Looping (run props acts w).
Proof.
  revert w. induction acts as [|a acts IH]; intros w HI HL; [done |].
  apply IH; [by apply step_Inv | by apply step_Looping].
Qed.

(** X4.  The frame loop neither forks nor stalls: [paint] is called once
    for every frame callback that runs before disposal, every frame request
    but the first follows a call of [paint] that returned, at most one
    frame callback is queued at any time, and while the component is not
    disposed and no exception has escaped, exactly one is. *)
Theorem frame_loop_accounting acts cv dpr u s :
  let w := run props acts (initial cv dpr u) in
  let tr := trace (w_host w) in
  w_scope w = Some s ->
  count is_paint tr = count_live (is_call CbFrame) tr
  /\ count (is_call CbFrame) tr + length (frames (w_host w)) = count is_request_frame tr
  /\ count is_request_frame tr + count_live is_escaped tr = 1 + count is_paint tr
  /\ count_live is_escaped tr <= 1
  /\ length (frames (w_host w)) <= 1
  /\ (disposed s = false -> count_live is_escaped tr = 0 -> frames (w_host w) = [CbFrame]).
Proof.
  intros w tr Hs.
  pose proof (reachable_Inv props acts cv dpr u) as HI. fold w in HI.
  assert (HL : Looping w) by (apply run_Looping; [apply initial_Inv | done]).
  unfold Looping in HL. rewrite Hs in HL. destruct HL.
  destruct (Inv_scope w s HI Hs) as [HB _].
  subst tr. repeat (split; [assumption |]). split; [| assumption].
  destruct (bound_frames _ _ HB) as [-> | ->]; simpl; lia.
Qed.

(** Only a frame callback calls [paint], at most once, with the value of
    [size]. *)
Lemma step_paints a w :
  Inv w ->
  exists new,
    paints (trace (w_host (step props a w))) = paints (trace (w_host w)) ++ new
    /\ (new = []
        \/ (a = AFrame
            /\ exists s, w_scope w = Some s /\ disposed s = false /\ new = [size s])).
Proof.
  step_cases props a w ltac:(norm_trace; rewrite ?paints_app; simpl;
    first [ exists []; split; [by rewrite ?app_nil_r | by left]
          | eexists [_]; split; [done |]; right; split; [done |];
            eexists; split; [done |]; split; done ]).
Qed.

Lemma step_sync a w :
  Inv w ->
  in_sync w \/ (exists type, a = AEvent type /\ is_viewport type = true) ->
  (forall cw ch dpr, a <> ALayout cw ch dpr) ->
  in_sync (step props a w).
Proof.
  step_cases props a w ltac:(unfold in_sync; simpl;
    intros Hsy Hna;
    first [ done
          | exfalso; by eapply Hna
          | destruct Hsy as [Hsy1 | (? & Heq & ?)];
            [by auto | try discriminate Heq; injection Heq as <-; congruence] ]).
Qed.

Lemma signalled_sync acts1 acts2 pending w :
  Inv w -> (pending = false -> in_sync w) ->
  signalled pending (acts1 ++ AFrame :: acts2) = true ->
  in_sync (run props acts1 w).
Proof.
  revert pending w. induction acts1 as [|a acts1 IH]; intros pending w HI Hs Hsig.
  - simpl in *. destruct pending; [done | auto].
  - simpl in *. destruct pending.
    + destruct a; try done. apply andb_true_iff in Hsig as [Hv Hsig].
      apply (IH false); [by apply step_Inv | | done].
      intros _. apply step_sync; [done | right; by eexists | done].
    + destruct a;
        try (apply (IH false); [by apply step_Inv | | done];
             intros _; apply step_sync; [done | left; auto | done]).
      apply (IH true); [by apply step_Inv | done | done].
Qed.

(** X5.  When the browser signals every change of layout or pixel density
    by a [resize] or [orientationchange] event before anything else
    happens, a frame callback calls [paint] at most once, and [paint] then
    receives the client size of the canvas times the pixel density as they
    are when the frame runs. *)
Theorem signalled_paint_is_current acts1 acts2 cv dpr u :
  signalled false (acts1 ++ AFrame :: acts2) = true ->
  let w := run props acts1 (initial cv dpr u) in
  let w' := step props AFrame w in
  exists new,
    paints (trace (w_host w')) = paints (trace (w_host w)) ++ new
    /\ (new = []
        \/ new = [scaled (clientWidth (canvas (w_host w)))
                         (clientHeight (canvas (w_host w)))
                         (devicePixelRatio (w_host w))]).
Proof.
  intros Hsig w w'.
  pose proof (reachable_Inv props acts1 cv dpr u) as HI. fold w in HI.
  assert (Hsync : in_sync w).
  { eapply signalled_sync; [apply initial_Inv | done | exact Hsig]. }
  destruct (step_paints AFrame w HI) as (new & Hp & Hnew).
  exists new. split; [done |].
  destruct Hnew as [-> | (_ & s & Hs & Hd & ->)]; [by left | right].
  unfold in_sync in Hsync. rewrite Hs in Hsync. by rewrite Hsync.
Qed.

End FrameLoop.

Section Rounding.

Lemma parse_digits n : parse_natural (Num.digits n) = Some n.
Proof.
  unfold parse_natural, Num.digits. rewrite NilZero.usu.
  - by rewrite DecimalN.Unsigned.of_to.
  - destruct n; [done |]. apply DecimalPos.Unsigned.to_uint_nonnil.
Qed.

End Rounding.

Section Timers.

Context {U Exn C : Type} `{!Freeable U Exn C}.
Variable props : CanvasProps U Exn C.
Implicit Types (w : World U Exn C) (s : Scope C) (h : Host U Exn C).

Lemma ordered_snoc ts t :
  ordered ts -> Forall (fun t' => (t'.1 <= t.1)%N) ts -> ordered (ts ++ [t]).
Proof.
  induction ts as [|t0 ts IH]; simpl; [done |].
  intros [Hall Hord] Hle. apply Forall_cons in Hle as [Hle0 Hle].
  split; [| by apply IH].
  apply Forall_app. split; [done |]. by repeat constructor.
Qed.

Lemma timers_later (ts : list (N * callback)) (n m : N) :
  (n <= m)%N ->
  Forall (fun t => (t.1 <= n + 200)%N) ts -> Forall (fun t => (t.1 <= m + 200)%N) ts.
Proof. intros Hnm Hts. eapply Forall_impl; [exact Hts |]. simpl. intros t Ht. lia. Qed.

Lemma step_timers a w : Inv w -> TimersOk (w_host w) -> TimersOk (w_host (step props a w)).
Proof.
  step_cases props a w ltac:(unfold TimersOk; simpl; intros [Ho Hb];
    first
      [ done
      | split;
        [ apply ordered_snoc; [done | exact Hb]
        | apply Forall_app; split; [done |]; constructor; [simpl; lia | constructor] ]
      | apply Forall_cons in Hb as [_ Hb]; by destruct Ho
      | split; [done |]; eapply timers_later; [| exact Hb]; lia
      | split; [by split | constructor; [simpl; lia | constructor]] ]).
Qed.

Lemma run_timers acts w :
  Inv w -> TimersOk (w_host w) -> TimersOk (w_host (run props acts w)).
Proof.
  revert w. induction acts as [|a acts IH]; intros w HI Ht; [done |].
  apply IH; [by apply step_Inv | by apply step_timers].
Qed.

Lemma ordered_head_first (ts : list (N * callback)) (n : N) t :
  ordered ts -> t ∈ ts -> (t.1 <= n)%N ->
  exists t0 rest, ts = t0 :: rest /\ (t0.1 <= n)%N.
Proof.
  destruct ts as [|t0 rest]; [by intros _ ?%elem_of_nil |].
  intros [Hall _] Hin Hle. exists t0, rest. split; [done |].
  apply elem_of_cons in Hin as [-> | Hin]; [done |].
  rewrite Forall_forall in Hall. specialize (Hall t Hin). lia.
Qed.

(** X6.  The timers that [requestResize] sets are queued in the order in
    which they fall due, each calls [resize] and is due at most 200 ms from
    now; so when any timer is due, the oldest one is. *)
Theorem timers_in_due_order acts cv dpr u :
  let h := w_host (run props acts (initial cv dpr u)) in
  ordered (timers h)
  /\ Forall (fun t => (t.1 <= now h + 200)%N /\ t.2 = CbResize) (timers h)
  /\ (forall t, t ∈ timers h -> (t.1 <= now h)%N ->
       exists t0 rest, timers h = t0 :: rest /\ (t0.1 <= now h)%N).
Proof.
  intros h.
  pose proof (reachable_Inv props acts cv dpr u) as HI.
  destruct (run_timers acts (initial cv dpr u)) as [Ho Hb];
    [apply initial_Inv | by split |].
  fold h in Ho, Hb. split; [done |]. split.
  - apply Forall_forall. intros t Hin. split.
    + rewrite Forall_forall in Hb. by apply Hb.
    + destruct (w_scope (run props acts (initial cv dpr u))) as [s|] eqn:Hs.
      * destruct (Inv_scope _ s HI Hs) as [HB _].
        pose proof (bound_timers _ _ HB) as Hts. fold h in Hts.
        rewrite Forall_forall in Hts. by apply Hts.
      * destruct (Inv_no_scope _ HI Hs) as (_ & _ & Hnil & _).
        fold h in Hnil. rewrite Hnil in Hin. by apply elem_of_nil in Hin.
  - intros t Hin Hle. by eapply ordered_head_first.
Qed.

End Timers.

Section Backing.

Context {U Exn C : Type} `{!Freeable U Exn C}.
Variable props : CanvasProps U Exn C.
Implicit Types (w : World U Exn C) (s : Scope C).

Lemma parse_toFixed0 x :
  Num.nonneg x = true -> Num.below_1e21 x = true ->
  exists n,
    parse_natural (Num.toFixed0 x) = Some n
    /\ nearest (Num.value x) n
    /\ (Num.is_integer x = true -> (inject_Z (Z.of_N n) == Num.value x)%Q).
Proof.
  intros Hn Hb. exists (Num.round (Num.value x)).
  rewrite toFixed0_digits, parse_digits by done.
  pose proof (value_nonneg x Hn) as Hv.
  split; [done |]. split; [by apply round_near |].
  intros [z Hz]%integer_value. by eapply round_integer.
Qed.

(** X7.  While the components of [size] are not negative and below 10^21,
    the [width] and [height] attributes of a mounted canvas are the decimal
    digits of two natural numbers, each an integer nearest to the component
    of [size] it was made from, and equal to it when that is an integer. *)
Theorem attributes_near_size acts cv dpr u s :
  let w := run props acts (initial cv dpr u) in
  w_scope w = Some s ->
  Num.nonneg (size s).1 = true -> Num.below_1e21 (size s).1 = true ->
  Num.nonneg (size s).2 = true -> Num.below_1e21 (size s).2 = true ->
  exists n m : N,
    (attributes (canvas (w_host w)) !! "width" ≫= parse_natural) = Some n
    /\ (attributes (canvas (w_host w)) !! "height" ≫= parse_natural) = Some m
    /\ nearest (Num.value (size s).1) n
    /\ nearest (Num.value (size s).2) m
    /\ (Num.is_integer (size s).1 = true ->
        (inject_Z (Z.of_N n) == Num.value (size s).1)%Q)
    /\ (Num.is_integer (size s).2 = true ->
        (inject_Z (Z.of_N m) == Num.value (size s).2)%Q).
Proof.
  intros w Hs Hn1 Hb1 Hn2 Hb2.
  pose proof (reachable_Inv props acts cv dpr u) as HI. fold w in HI.
  destruct (Inv_scope w s HI Hs) as [HB _].
  destruct (parse_toFixed0 _ Hn1 Hb1) as (n & Hpn & Hnn & Hin).
  destruct (parse_toFixed0 _ Hn2 Hb2) as (m & Hpm & Hnm & Him).
  exists n, m.
  rewrite (bound_width _ _ HB), (bound_height _ _ HB). simpl.
  by rewrite Hpn, Hpm.
Qed.

End Backing.

(** * Beyond the claims: re-rendering *)

Section PageFacts.

Context {U Exn C : Type} `{!Freeable U Exn C}.
Implicit Types (p : Page U Exn C) (m : Mount U Exn C) (r : Render U Exn C)
  (w : World U Exn C).

Lemma run_snoc (props : CanvasProps U Exn C) acts a w :
  run props (acts ++ [a]) w = step props a (run props acts w).
Proof. unfold run. by rewrite foldl_app. Qed.

Lemma Reach_Inv m : Reach m -> Inv (world m).
Proof. intros (acts & cv & dpr & u & ->). apply reachable_Inv. Qed.

Lemma on_mount_Reach a m : Reach m -> Reach (on_mount a m).
Proof.
  intros (acts & cv & dpr & u & Hw).
  exists (acts ++ [a]), cv, dpr, u. simpl. by rewrite run_snoc, Hw.
Qed.

Lemma reborn_Reach r (h : Host U Exn C) : Reach (mkMount r (reborn h)).
Proof.
  exists [ATick (now h)], (canvas h), (devicePixelRatio h), (user h). done.
Qed.

Lemma step_phase_mounted (props : CanvasProps U Exn C) a w :
  w_phase w <> Unbound -> w_phase (step props a w) <> Unbound.
Proof.
  destruct w as [h [s|] ph]; simpl; intros Hp; destruct a; simpl; try done;
    by destruct ph.
Qed.

Lemma mount_phase (props : CanvasProps U Exn C) w :
  w_phase w = Unbound -> w_phase (step props AMount w) <> Unbound.
Proof.
  destruct w as [h sc ph]. simpl. intros ->. unfold mount. simpl.
  destruct (effect props h) as [[[] ?] ?]; done.
Qed.

Lemma boot_PInv r cv dpr u : PInv (boot r cv dpr u).
Proof.
  split; [constructor |]. split.
  - apply on_mount_Reach. by exists [], cv, dpr, u.
  - by apply mount_phase.
Qed.

Lemma everywhere_PInv a p : PInv p -> PInv (everywhere a p).
Proof.
  intros (Hpast & Hcur & Hph). split; [| split].
  - simpl. apply Forall_fmap. eapply Forall_impl; [exact Hpast |].
    intros m [Hr Hd]. split; [by apply on_mount_Reach |].
    by apply step_phase_Disposed.
  - by apply on_mount_Reach.
  - by apply step_phase_mounted.
Qed.

Lemma pstep_PInv a p : PInv p -> PInv (pstep a p).
Proof.
  intros HI. destruct a; simpl; try (by apply everywhere_PInv).
  - pose proof HI as (Hpast & Hcur & Hph).
    unfold render. destruct (w_phase (world (cur p))) eqn:Hp; try exact HI.
    destruct (decide _); [exact HI |].
    split; [| split].
    + apply Forall_app. split; [done |]. repeat constructor.
      * by apply on_mount_Reach.
      * by apply unmount_phase.
    + apply on_mount_Reach, reborn_Reach.
    + by apply mount_phase.
  - destruct HI as (Hpast & Hcur & Hph). split; [done |]. split.
    + by apply on_mount_Reach.
    + by apply step_phase_mounted.
  - destruct HI as (Hpast & Hcur & Hph).
    destruct (past p !! k) as [m|] eqn:Hk.
    + split; [| done]. simpl.
      apply Forall_forall. intros m' Hin.
      apply list_elem_of_lookup in Hin as [i Hi].
      rewrite Forall_forall in Hpast.
      destruct (decide (i = k)) as [-> | Hne].
      * rewrite list_lookup_alter_eq, Hk in Hi. injection Hi as <-.
        destruct (Hpast m) as [Hr Hd]; [by eapply list_elem_of_lookup_2 |].
        split; [by apply on_mount_Reach | by apply step_phase_Disposed].
      * rewrite list_lookup_alter_ne in Hi by done.
        apply Hpast. by eapply list_elem_of_lookup_2.
    + split; [done |]. split.
      * by apply on_mount_Reach.
      * by apply step_phase_mounted.
Qed.

Lemma prun_PInv acts p : PInv p -> PInv (prun acts p).
Proof.
  revert p. induction acts as [|a acts IH]; intros p HI; [done |].
  apply IH. by apply pstep_PInv.
Qed.

Lemma reachable_PInv pacts r cv dpr u : PInv (prun pacts (boot r cv dpr u)).
Proof. apply prun_PInv, boot_PInv. Qed.

(** *** Sums over the runs *)

Lemma total_mounts f p :
  total f p = foldr (fun m n => f (world m) + n) 0 (past p) + f (world (cur p)).
Proof.
  unfold total, mounts. generalize (past p). intros l.
  induction l as [|m l IH]; simpl; lia.
Qed.

Lemma past_sum_const f (l : list (Mount U Exn C)) (k : nat) :
  Forall (fun m => f (world m) = k) l ->
  foldr (fun m n => f (world m) + n) 0 l = k * length l.
Proof. induction 1 as [|m l Hm _ IH]; simpl; lia. Qed.

Lemma total_const f p (k : nat) :
  Forall (fun m => f (world m) = k) (past p) ->
  total f p = k * length (past p) + f (world (cur p)).
Proof. intros Hk. by rewrite total_mounts, (past_sum_const f _ k). Qed.

Lemma past_sum_le f g (l l' : list (Mount U Exn C)) :
  Forall2 (fun m m' => f (world m') <= g (world m)) l l' ->
  foldr (fun m n => f (world m) + n) 0 l' <= foldr (fun m n => g (world m) + n) 0 l.
Proof. induction 1; simpl; lia. Qed.

(** *** What the log of one run says about its context *)

Lemma count_init_ok_le (tr : list (event Exn C)) : count is_init_ok tr <= count is_init tr.
Proof.
  induction tr as [|e tr IH]; simpl; [done |].
  destruct e as [[]| | | | | | | | | | |]; simpl; lia.
Qed.

Lemma world_contexts w :
  Inv w ->
  count is_init_ok (trace (w_host w))
  = match w_phase w with Running | Disposed => 1 | _ => 0 end
  /\ count is_free (trace (w_host w))
     = match w_phase w with Disposed => 1 | _ => 0 end
  /\ count is_init (trace (w_host w))
     = match w_phase w with Unbound => 0 | _ => 1 end.
Proof.
  intros HI. destruct (w_scope w) as [s|] eqn:Hs.
  - destruct (Inv_scope w s HI Hs) as [HB Hp].
    assert (Hok : count is_init_ok (trace (w_host w)) = 1).
    { pose proof (bound_init _ _ HB) as Hinit.
      destruct (count_last_split is_init (trace (w_host w))) as (q & e & q' & Hq & He & Hq');
        [lia |].
      destruct e; try discriminate.
      destruct (bound_safe _ _ HB _ _ _ Hq) as [-> ->].
      pose proof (count_init_ok_le q') as Hle.
      rewrite Hq. simpl. lia. }
    rewrite Hp, Hok, (bound_free _ _ HB), (bound_init _ _ HB).
    by destruct (disposed s).
  - unfold Inv in HI. rewrite Hs in HI.
    destruct (w_phase w); try done.
    + by destruct HI as (_ & _ & _ & ->).
    + by destruct HI as (_ & _ & _ & e & ->).
Qed.

(** X9.  Across re-renders, every context that [init] returned is freed
    exactly once, but for the context of the run of the effect that is
    still running: each earlier run made one context and freed it. *)
Theorem contexts_balance pacts r cv dpr u :
  let p := prun pacts (boot r cv dpr u) in
  total (fun w => count is_init_ok (trace (w_host w))) p
  = total (fun w => count is_free (trace (w_host w))) p + is_live (world (cur p))
  /\ Forall (fun m => count is_init_ok (trace (w_host (world m))) = 1
                     /\ count is_free (trace (w_host (world m))) = 1) (past p).
Proof.
  intros p. destruct (reachable_PInv pacts r cv dpr u) as (Hpast & Hcur & Hph).
  fold p in Hpast, Hcur, Hph.
  assert (Hp : Forall (fun m => count is_init_ok (trace (w_host (world m))) = 1
                     /\ count is_free (trace (w_host (world m))) = 1) (past p)).
  { eapply Forall_impl; [exact Hpast |]. intros m [Hr Hd].
    destruct (world_contexts _ (Reach_Inv m Hr)) as (Hi & Hf & _).
    by rewrite Hi, Hf, Hd. }
  split; [| done].
  rewrite (total_const (fun w => count is_init_ok (trace (w_host w))) p 1),
          (total_const (fun w => count is_free (trace (w_host w))) p 1);
    [| eapply Forall_impl; [exact Hp |]; by intros m [_ ?]
     | eapply Forall_impl; [exact Hp |]; by intros m [? _] ].
  destruct (world_contexts _ (Reach_Inv _ Hcur)) as (Hi & Hf & _).
  rewrite Hi, Hf. unfold is_live. destruct (w_phase (world (cur p))); lia.
Qed.

(** X10.  Across re-renders at most one run of the effect is live: every
    earlier run is disposed and has no listener registered, and the
    listeners registered on [window] are the two of the running run, or
    none. *)
Theorem one_live_effect pacts r cv dpr u :
  let p := prun pacts (boot r cv dpr u) in
  Forall (fun m =>
            w_phase (world m) = Disposed
            /\ listeners (w_host (world m)) = []
            /\ exists s, w_scope (world m) = Some s /\ disposed s = true) (past p)
  /\ total is_live p <= 1
  /\ total (fun w => length (listeners (w_host w))) p
     = 2 * is_live (world (cur p)).
Proof.
  intros p. destruct (reachable_PInv pacts r cv dpr u) as (Hpast & Hcur & Hph).
  fold p in Hpast, Hcur, Hph.
  assert (Hp : Forall (fun m =>
            w_phase (world m) = Disposed
            /\ listeners (w_host (world m)) = []
            /\ exists s, w_scope (world m) = Some s /\ disposed s = true) (past p)).
  { eapply Forall_impl; [exact Hpast |]. intros m [Hr Hd].
    destruct (Inv_Disposed _ (Reach_Inv m Hr) Hd) as (s & Hs & Hds & HB).
    pose proof (bound_listeners _ _ HB) as Hls. rewrite Hds in Hls.
    split; [done |]. split; [done |]. by exists s. }
  split; [done |].
  rewrite (total_const is_live p 0),
          (total_const (fun w => length (listeners (w_host w))) p 0);
    [| eapply Forall_impl; [exact Hp |]; intros m (_ & -> & _); done
     | eapply Forall_impl; [exact Hp |]; intros m (Hd & _); unfold is_live; by rewrite Hd ].
  split; [unfold is_live; destruct (w_phase (world (cur p))); lia |].
  simpl. pose proof (Reach_Inv _ Hcur) as HI.
  unfold is_live. destruct (w_phase (world (cur p))) eqn:Hc.
  - done.
  - destruct (Inv_Running _ HI Hc) as (s & _ & Hd & HB).
    pose proof (bound_listeners _ _ HB) as Hls. rewrite Hd in Hls. by rewrite Hls.
  - destruct (Inv_Disposed _ HI Hc) as (s & _ & Hd & HB).
    pose proof (bound_listeners _ _ HB) as Hls. rewrite Hd in Hls. by rewrite Hls.
  - unfold Inv in HI. rewrite Hc in HI.
    destruct (w_scope (world (cur p))); [done |].
    by destruct HI as (-> & _).
Qed.

(** *** Paints and frames *)

Lemma step_paint_count (props : CanvasProps U Exn C) a w :
  Inv w ->
  paint_count (step props a w)
  <= paint_count w + (if is_frame a then is_live w else 0).
Proof.
  intros HI. unfold paint_count.
  destruct (step_paints props a w HI) as (new & Hp & Hnew).
  rewrite <- !paints_count, Hp, length_app.
  destruct Hnew as [-> | (-> & s & Hs & Hd & ->)]; simpl; [lia |].
  destruct (Inv_scope w s HI Hs) as [_ Hph]. rewrite Hd in Hph.
  unfold is_live. rewrite Hph. lia.
Qed.

Lemma run_paint_count (props : CanvasProps U Exn C) acts w :
  Inv w -> paint_count (run props acts w) <= paint_count w + tally is_frame acts.
Proof.
  revert w. induction acts as [|a acts IH]; intros w HI; simpl; [lia |].
  specialize (IH (step props a w) (step_Inv props a w HI)).
  pose proof (step_paint_count props a w HI) as Hs.
  unfold is_live in Hs. destruct (is_frame a), (w_phase w); lia.
Qed.

(** X8.  In every run of one mount [paint] is called at most once per
    display frame. *)
Theorem paints_at_most_frames (props : CanvasProps U Exn C) acts cv dpr u :
  count is_paint (trace (w_host (run props acts (initial cv dpr u))))
  <= tally is_frame acts.
Proof.
  pose proof (run_paint_count props acts (initial cv dpr u) (initial_Inv cv dpr u)) as H.
  unfold paint_count in H. simpl in H. lia.
Qed.

Lemma sum_app f (l1 l2 : list (Mount U Exn C)) :
  foldr (fun m n => f (world m) + n) 0 (l1 ++ l2)
  = foldr (fun m n => f (world m) + n) 0 l1 + foldr (fun m n => f (world m) + n) 0 l2.
Proof. induction l1 as [|m l1 IH]; simpl; lia. Qed.

Lemma sum_fmap_le f (g : Mount U Exn C -> Mount U Exn C) l :
  Forall (fun m => f (world (g m)) <= f (world m)) l ->
  foldr (fun m n => f (world m) + n) 0 (g <$> l)
  <= foldr (fun m n => f (world m) + n) 0 l.
Proof.
  induction 1 as [|m l Hm _ IH]; [done |].
  rewrite fmap_cons. cbn [foldr]. lia.
Qed.

Lemma sum_alter_le f (g : Mount U Exn C -> Mount U Exn C) k l :
  Forall (fun m => f (world (g m)) <= f (world m)) l ->
  foldr (fun m n => f (world m) + n) 0 (alter g k l)
  <= foldr (fun m n => f (world m) + n) 0 l.
Proof.
  intros H. revert k. induction H as [|m l Hm _ IH]; intros k; [done |].
  destruct k as [|k]; simpl; [lia |]. apply Nat.add_le_mono_l, IH.
Qed.

Lemma past_quiet a p :
  PInv p ->
  Forall (fun m => paint_count (world (on_mount a m)) <= paint_count (world m)) (past p).
Proof.
  intros (Hpast & _). eapply Forall_impl; [exact Hpast |].
  intros m [Hr Hd]. simpl.
  pose proof (step_paint_count (props_of (rendered m)) a _ (Reach_Inv m Hr)) as Hs.
  unfold is_live in Hs. rewrite Hd in Hs. destruct (is_frame a); lia.
Qed.

Lemma cur_paint_count a p :
  PInv p ->
  paint_count (world (on_mount a (cur p)))
  <= paint_count (world (cur p)) + (if is_frame a then 1 else 0).
Proof.
  intros (_ & Hcur & _). simpl.
  pose proof (step_paint_count (props_of (rendered (cur p))) a _ (Reach_Inv _ Hcur)) as Hs.
  unfold is_live in Hs. destruct (is_frame a), (w_phase (world (cur p))); lia.
Qed.

Lemma everywhere_paint_count a p :
  PInv p ->
  total paint_count (everywhere a p)
  <= total paint_count p + (if is_frame a then 1 else 0).
Proof.
  intros HI. rewrite !total_mounts. simpl.
  pose proof (sum_fmap_le paint_count (on_mount a) (past p) (past_quiet a p HI)).
  pose proof (cur_paint_count a p HI). simpl in *. lia.
Qed.

Lemma remount_paint_count r p :
  PInv p -> total paint_count (remount r p) <= total paint_count p.
Proof.
  intros HI. unfold remount. rewrite !total_mounts. cbn [past cur].
  rewrite sum_app. cbn [foldr].
  pose proof (cur_paint_count AUnmount p HI) as Hold. cbn [is_frame] in Hold.
  set (old := on_mount AUnmount (cur p)) in *.
  pose proof (step_paint_count (props_of r) AMount (reborn (w_host (world old)))
                (Reach_Inv _ (reborn_Reach r _))) as Hnew.
  change (paint_count (reborn (w_host (world old)))) with 0 in Hnew.
  cbn [is_frame] in Hnew.
  change (world (on_mount AMount (mkMount r (reborn (w_host (world old))))))
    with (step (props_of r) AMount (reborn (w_host (world old)))).
  lia.
Qed.

Lemma pstep_paint_count a p :
  PInv p ->
  total paint_count (pstep a p)
  <= total paint_count p + (if is_page_frame a then 1 else 0).
Proof.
  intros HI. destruct a as [r | | | k | ty | cw ch d | ms];
    cbn [pstep is_page_frame].
  - unfold render. destruct (w_phase (world (cur p))); try lia.
    destruct (decide _); [lia |].
    pose proof (remount_paint_count r p HI). lia.
  - rewrite !total_mounts. cbn [past cur foldr].
    pose proof (cur_paint_count AUnmount p HI) as Hc. cbn [is_frame] in Hc. lia.
  - apply (everywhere_paint_count AFrame p HI).
  - destruct (past p !! k).
    + rewrite !total_mounts. cbn [past cur foldr].
      pose proof (sum_alter_le paint_count (on_mount ATimer) k (past p)
                    (past_quiet ATimer p HI)). lia.
    + rewrite !total_mounts. cbn [past cur foldr].
      pose proof (cur_paint_count ATimer p HI) as Hc. cbn [is_frame] in Hc. lia.
  - apply (everywhere_paint_count (AEvent ty) p HI).
  - apply (everywhere_paint_count (ALayout cw ch d) p HI).
  - apply (everywhere_paint_count (ATick ms) p HI).
Qed.

(** X11.  Across re-renders too, the calls of [paint] of all the runs of
    the effect together are at most one per display frame: the frame
    callbacks that earlier runs left queued do not paint. *)
Theorem page_paints_at_most_frames pacts r cv dpr u :
  total paint_count (prun pacts (boot r cv dpr u)) <= tally is_page_frame pacts.
Proof.
  assert (H : forall p, PInv p ->
            total paint_count (prun pacts p)
            <= total paint_count p + tally is_page_frame pacts).
  { induction pacts as [|a pacts IH]; intros p HI; simpl; [lia |].
    specialize (IH (pstep a p) (pstep_PInv a p HI)).
    pose proof (pstep_paint_count a p HI). lia. }
  specialize (H _ (boot_PInv r cv dpr u)).
  assert (H0 : total paint_count (boot r cv dpr u) = 0).
  { unfold total, mounts, boot. simpl.
    pose proof (step_paint_count (props_of r) AMount (initial cv dpr u)
                  (initial_Inv cv dpr u)) as Hm.
    unfold paint_count in *. simpl in *. lia. }
  lia.
Qed.

End PageFacts.

(** * Instances of the properties beyond the claims *)

Lemma unmount_order_witness :
  w_phase (Runs.painted 100) = Running
  /\ trace (w_host Runs.cycle)
     = trace (w_host (Runs.painted 100))
       ++ [EvDisposed; EvRemoveListener "resize";
           EvRemoveListener "orientationchange"; EvFree 7].
Proof.
  split; [reflexivity |].
  exact (proj1 (unmount_order (Demo.props 100) [AMount; AFrame]
           (Demo.canvas0 320 200) 2 0 (mkScope 7 (640, 400)%num false)
           eq_refl eq_refl)).
Defined.

Lemma disposed_is_inert_witness :
  w_phase Runs.cycle = Disposed
  /\ attributes (canvas (w_host
         (run (Demo.props 100)
            [AFrame; ALayout 400 200 2; AEvent "resize"; ATick 200; ATimer]
            Runs.cycle)))
     = attributes (canvas (w_host Runs.cycle)).
Proof.
  split; [reflexivity |].
  apply (proj1 (proj2 (proj2 (disposed_is_inert (Demo.props 100)
           [AMount; AFrame; AUnmount] (Demo.canvas0 320 200) 2 0
           [AFrame; ALayout 400 200 2; AEvent "resize"; ATick 200; ATimer]
           eq_refl)))).
Defined.

Lemma foreign_attributes_kept_witness :
  attributes (canvas (w_host
     (run (Demo.props 100) [AMount; AFrame; AUnmount]
        (initial styled_canvas 2 0)))) !! "id"
  = Some "view".
Proof.
  apply (foreign_attributes_kept (Demo.props 100) [AMount; AFrame; AUnmount]
           styled_canvas 2 0 "id"); discriminate.
Defined.

Lemma frame_loop_accounting_witness :
  w_scope (Runs.painted 100) = Some (mkScope 7 (640, 400)%num false)
  /\ frames (w_host (Runs.painted 100)) = [CbFrame].
Proof.
  split; [reflexivity |].
  apply (proj2 (proj2 (proj2 (proj2 (proj2
           (frame_loop_accounting (Demo.props 100) [AMount; AFrame]
              (Demo.canvas0 320 200) 2 0 (mkScope 7 (640, 400)%num false)
              eq_refl))))));
    reflexivity.
Defined.

Lemma signalled_paint_is_current_witness :
  signalled false
    ([AMount; ALayout 400 200 2; AEvent "resize"] ++ AFrame :: [AUnmount]) = true
  /\ exists new,
       paints (trace (w_host
          (run (Demo.props 100)
             [AMount; ALayout 400 200 2; AEvent "resize"; AFrame]
             (Demo.start 320 200 2))))
       = paints (trace (w_host
           (run (Demo.props 100) [AMount; ALayout 400 200 2; AEvent "resize"]
              (Demo.start 320 200 2)))) ++ new
       /\ (new = [] \/ new = [scaled 400 200 2]).
Proof.
  split; [reflexivity |].
  destruct (signalled_paint_is_current (Demo.props 100)
              [AMount; ALayout 400 200 2; AEvent "resize"] [AUnmount]
              (Demo.canvas0 320 200) 2 0 eq_refl) as (new & Hp & Hnew).
  exists new. split; [exact Hp |].
  destruct Hnew as [-> | ->]; [left; reflexivity | right].
  vm_compute. reflexivity.
Defined.

Lemma attributes_near_size_witness :
  w_scope Runs.fractional = Some (mkScope 7 (Num.div 963 2, 300%num) false)
  /\ exists n m : N,
       (attributes (canvas (w_host Runs.fractional)) !! "width"
        ≫= parse_natural) = Some n
       /\ (attributes (canvas (w_host Runs.fractional)) !! "height"
           ≫= parse_natural) = Some m
       /\ nearest (Num.value (Num.div 963 2)) n
       /\ nearest (Num.value 300) m.
Proof.
  split; [reflexivity |].
  destruct (attributes_near_size (Demo.props 100) [AMount; AFrame]
              (Demo.canvas0 321 200) (Num.div 3 2) 0
              (mkScope 7 (Num.div 963 2, 300%num) false)
              eq_refl eq_refl eq_refl eq_refl eq_refl)
    as (n & m & Hn & Hm & Hlo & Hhi & _).
  exists n, m. split; [exact Hn |]. split; [exact Hm |].
  split; [exact Hlo | exact Hhi].
Defined.
